(** * obs_decam: ISR with Community Pipeline calibration products

    A shallow embedding of [python/lsst/obs/decam/decamCpIsr.py]:
    the edge-trim computation [_computeEdgeSize], the configuration class
    [DecamCpIsrConfig] and the two overridden correction methods of
    [DecamCpIsrTask]; and, at the end, of the configuration overrides of
    [config/processCcdCpIsr.py].

    Image geometry follows [lsst.afw]: integer points, extents and boxes.
    A masked image is a bounding box together with an image plane and a mask
    plane indexed by LOCAL pixel coordinates; mask pixels are bit sets.
    Python exceptions are an explicit outcome, mutation of the two exposure
    objects is explicit state passing. *)

From Stdlib Require Import ZArith NArith Lia Bool String.
From stdpp Require Import base option gmap strings.

Local Open Scope string_scope.
Local Open Scope Z_scope.

(** ** Exceptions and outcomes *)

Inductive exn : Type :=
  | AssertionError (msg : string)
  | AttributeError (name : string)
  | RuntimeError (msg : string).

Inductive outcome (A : Type) : Type :=
  | Returns (a : A)
  | Raises (e : exn).
Arguments Returns {A} a.
Arguments Raises {A} e.

#[export] Instance outcome_ret : MRet outcome := fun A a => Returns a.
#[export] Instance outcome_bind : MBind outcome := fun A B f m =>
  match m with
  | Returns a => f a
  | Raises e => Raises e
  end.

(** Python's [assert cond, msg]. *)
Definition assert_ (cond : bool) (msg : string) : outcome unit :=
  if cond then Returns tt else Raises (AssertionError msg).

(** ** Geometry: [lsst.afw.geom] *)

Module Geom.

Record Point2I : Type := mkPoint { px : Z; py : Z }.
Record Extent2I : Type := mkExtent { ex : Z; ey : Z }.

(** [Extent2I.__sub__]: component-wise difference. *)
Definition extent_sub (a b : Extent2I) : Extent2I :=
  mkExtent (ex a - ex b) (ey a - ey b).

(** [Point2I - Point2I] is an extent, [Point2I + Extent2I] a point. *)
Definition point_diff (a b : Point2I) : Extent2I :=
  mkExtent (px a - px b) (py a - py b).

Definition point_shift (p : Point2I) (e : Extent2I) : Point2I :=
  mkPoint (px p + ex e) (py p + ey e).

(** A box is its minimum corner and its dimensions. *)
Record Box2I : Type := mkBox { getMin : Point2I; getDimensions : Extent2I }.

Definition getWidth (b : Box2I) : Z := ex (getDimensions b).
Definition getHeight (b : Box2I) : Z := ey (getDimensions b).
Definition getBeginX (b : Box2I) : Z := px (getMin b).
Definition getBeginY (b : Box2I) : Z := py (getMin b).
Definition getEndX (b : Box2I) : Z := getBeginX b + getWidth b.
Definition getEndY (b : Box2I) : Z := getBeginY b + getHeight b.

(** [Box2I.contains] for the pixel [(x, y)], as a boolean. *)
Definition contains (b : Box2I) (x y : Z) : bool :=
  (getBeginX b <=? x) && (x <? getEndX b) &&
  (getBeginY b <=? y) && (y <? getEndY b).

End Geom.
Export Geom.

(** ** Images, exposures and the correction task *)

Section Isr.

(** Image-plane pixel values and configuration scalars are floating point
    in the framework; the parts of an exposure other than its masked image
    (metadata, WCS, detector, ...) are [Info].  All three are abstract. *)
Context {Pixel Info Scalar : Type}.

(** A masked image: bounding box in PARENT coordinates, image plane and
    mask plane.  Planes are addressed by LOCAL coordinates [(x, y)],
    [0 <= x < width] and [0 <= y < height]; a mask pixel is a bit set. *)
Record MaskedImage : Type := mkMaskedImage {
  mi_bbox : Box2I;
  mi_image : Z -> Z -> Pixel;
  mi_mask : Z -> Z -> N
}.

Record Exposure : Type := mkExposure {
  exp_info : Info;
  getMaskedImage : MaskedImage
}.

(** [Exposure.getBBox()] is the bounding box of the masked image. *)
Definition getBBox (e : Exposure) : Box2I := mi_bbox (getMaskedImage e).

(** *** The edge-trim computation (decamCpIsr.py, lines 32-55) *)

Definition _computeEdgeSize (rawExposure calibExposure : Exposure) : outcome Z :=
  let d := extent_sub (getDimensions (getBBox rawExposure))
                      (getDimensions (getBBox calibExposure)) in
  let nx := ex d in
  let ny := ey d in
  _ ← assert_ (nx =? ny) "Exposure is trimmed differently in X and Y";
  _ ← assert_ (nx mod 2 =? 0) "Exposure is trimmed unevenly in X";
  _ ← assert_ (nx >=? 0) "Calibration image is larger than raw data";
  mret (nx / 2).

(** *** Sub-image views

    [maskedImage[x0:x1, y0:y1, LOCAL]] is a masked image that shares its
    pixels with its parent.  A view is the LOCAL box of the parent it
    covers; pixels are read and written through it. *)

Record View : Type := mkView { view_box : Box2I }.

(** A negative slice bound counts from the end (LOCAL origin only). *)
Definition handleNegativeIndex (index size : Z) : Z :=
  if index <? 0 then size + index else index.

Definition sliceLOCAL (parent : MaskedImage) (xs ys : Z * Z) : View :=
  let w := getWidth (mi_bbox parent) in
  let h := getHeight (mi_bbox parent) in
  let begin_ := mkPoint (handleNegativeIndex (fst xs) w) (handleNegativeIndex (fst ys) h) in
  let end_ := mkPoint (handleNegativeIndex (snd xs) w) (handleNegativeIndex (snd ys) h) in
  mkView (mkBox begin_ (point_diff end_ begin_)).

(** The parent itself, as the view of all of its pixels. *)
Definition wholeImage (parent : MaskedImage) : View :=
  mkView (mkBox (mkPoint 0 0) (getDimensions (mi_bbox parent))).

(** [view.getBBox()]: the box of the view in PARENT coordinates. *)
Definition view_getBBox (parent : MaskedImage) (v : View) : Box2I :=
  let b := view_box v in
  mkBox (mkPoint (getBeginX (mi_bbox parent) + getBeginX b)
                 (getBeginY (mi_bbox parent) + getBeginY b))
        (getDimensions b).

(** The masked image seen through a view, in the view's LOCAL coordinates. *)
Definition readView (parent : MaskedImage) (v : View) : MaskedImage :=
  let b := view_box v in
  mkMaskedImage (view_getBBox parent v)
    (fun x y => mi_image parent (getBeginX b + x) (getBeginY b + y))
    (fun x y => mi_mask parent (getBeginX b + x) (getBeginY b + y)).

(** The parent after the pixels of the view were overwritten by those of
    [new]; pixels of the parent outside the view keep their values. *)
Definition writeView (parent : MaskedImage) (v : View) (new : MaskedImage) : MaskedImage :=
  let b := view_box v in
  mkMaskedImage (mi_bbox parent)
    (fun x y => if contains b x y
                then mi_image new (x - getBeginX b) (y - getBeginY b)
                else mi_image parent x y)
    (fun x y => if contains b x y
                then mi_mask new (x - getBeginX b) (y - getBeginY b)
                else mi_mask parent x y).

(** An in-place update of a whole masked image: the planes change, the
    bounding box cannot. *)
Definition overwrite (old new : MaskedImage) : MaskedImage :=
  mkMaskedImage (mi_bbox old) (mi_image new) (mi_mask new).

(** *** Mask planes *)

(** The mask plane dictionary of the framework: the bit index of a named
    plane.  [getPlaneBitMask] is the bit mask with that one bit. *)
Variable getMaskPlane : string -> N.

Definition getPlaneBitMask (name : string) : N := N.shiftl 1 (getMaskPlane name).

(** Modelled from the spec: [SourceDetectionTask.setEdgeBits] belongs to
    the detection package of the framework.  Given a masked image, the
    sub-region already corrected (PARENT coordinates) and a bit mask, it
    sets that bit mask on all pixels outside the sub-region and keeps the
    bits already set. *)
Definition setEdgeBits (maskedImage : MaskedImage) (goodBBox : Box2I) (edgeBitmask : N)
  : MaskedImage :=
  let b := mi_bbox maskedImage in
  mkMaskedImage b (mi_image maskedImage)
    (fun x y =>
       let X := getBeginX b + x in
       let Y := getBeginY b + y in
       if contains b X Y && negb (contains goodBBox X Y)
       then N.lor (mi_mask maskedImage x y) edgeBitmask
       else mi_mask maskedImage x y).

(** *** Configuration objects

    A configuration is a Python object: a finite map from attribute names
    to values. *)

Inductive value : Type :=
  | VStr (s : string)
  | VScalar (r : Scalar).

Definition getattr (obj : gmap string value) (name : string) : outcome value :=
  match obj !! name with
  | Some v => Returns v
  | None => Raises (AttributeError name)
  end.

(** [DecamCpIsrConfig.setDefaults] (decamCpIsr.py, lines 60-62). *)
Definition setDefaults (self : gmap string value) : gmap string value :=
  <["flatDataProductName" := VStr "cpFlat"]>
    (<["biasDataProductName" := VStr "cpBias"]> self).

Record DecamCpIsrTask : Type := mkTask { config : gmap string value }.

(** *** The state of a correction call

    Both methods receive two exposure objects and mutate them in place.
    A computation takes the state of the two objects and gives an outcome
    and their state when it returned or raised.  The raw and the
    calibration exposure are two objects: they share no pixels. *)

Record World : Type := mkWorld {
  exposure : Exposure;
  calibExposure : Exposure
}.

Definition M (A : Type) : Type := World -> outcome A * World.

#[local] Instance M_ret : MRet M := fun A a w => (Returns a, w).
#[local] Instance M_bind : MBind M := fun A B f m w =>
  match m w with
  | (Returns a, w') => f a w'
  | (Raises e, w') => (Raises e, w')
  end.

Definition lift {A : Type} (o : outcome A) : M A := fun w => (o, w).
Definition gets {A : Type} (f : World -> A) : M A := fun w => (Returns (f w), w).

(** *** The correction routines of the framework

    [lsst.ip.isr.biasCorrection] and [lsst.ip.isr.flatCorrection] receive
    two masked image objects.  Each may update the pixels of either, and
    return or raise. *)
Variable ip_isr_biasCorrection :
  MaskedImage -> MaskedImage -> outcome unit * (MaskedImage * MaskedImage).
Variable ip_isr_flatCorrection :
  MaskedImage -> MaskedImage -> value -> value ->
  outcome unit * (MaskedImage * MaskedImage).

(** A call [routine(rawMaskedImage, calibExposure.getMaskedImage())]: the
    routine sees the exposure's pixels through the view, and what it did
    to them is what happened to the exposure's masked image. *)
Definition callRoutine
  (routine : MaskedImage -> MaskedImage -> outcome unit * (MaskedImage * MaskedImage))
  (rawMaskedImage : View) : M unit :=
  fun w =>
    let parent := getMaskedImage (exposure w) in
    let calib := getMaskedImage (calibExposure w) in
    let r := routine (readView parent rawMaskedImage) calib in
    (fst r,
     mkWorld
       (mkExposure (exp_info (exposure w))
                   (writeView parent rawMaskedImage (fst (snd r))))
       (mkExposure (exp_info (calibExposure w))
                   (overwrite calib (snd (snd r))))).

(** [SourceDetectionTask.setEdgeBits(exposure.getMaskedImage(), goodBBox, mask)] *)
Definition callSetEdgeBits (goodBBox : Box2I) (edgeBitmask : N) : M unit :=
  fun w =>
    (Returns tt,
     mkWorld
       (mkExposure (exp_info (exposure w))
                   (setEdgeBits (getMaskedImage (exposure w)) goodBBox edgeBitmask))
       (calibExposure w)).

(** [_computeEdgeSize(exposure, calibExposure)]: reads both, writes nothing. *)
Definition call_computeEdgeSize : M Z :=
  fun w => (_computeEdgeSize (exposure w) (calibExposure w), w).

(** *** [DecamCpIsrTask.biasCorrection] (decamCpIsr.py, lines 73-99) *)

Definition biasCorrection (self : DecamCpIsrTask) : M unit :=
  nEdge ← call_computeEdgeSize;
  rawMaskedImage ←
    (if nEdge >? 0
     then gets (fun w => sliceLOCAL (getMaskedImage (exposure w))
                                    (nEdge, - nEdge) (nEdge, - nEdge))
     else gets (fun w => wholeImage (getMaskedImage (exposure w))));
  _ ← callRoutine ip_isr_biasCorrection rawMaskedImage;
  goodBBox ← gets (fun w => view_getBBox (getMaskedImage (exposure w)) rawMaskedImage);
  callSetEdgeBits goodBBox (getPlaneBitMask "EDGE").

(** *** [DecamCpIsrTask.flatCorrection] (decamCpIsr.py, lines 101-132) *)

Definition flatCorrection (self : DecamCpIsrTask) : M unit :=
  nEdge ← call_computeEdgeSize;
  rawMaskedImage ←
    (if nEdge >? 0
     then gets (fun w => sliceLOCAL (getMaskedImage (exposure w))
                                    (nEdge, - nEdge) (nEdge, - nEdge))
     else gets (fun w => wholeImage (getMaskedImage (exposure w))));
  flatScalingType ← lift (getattr (config self) "flatScalingType");
  flatUserScale ← lift (getattr (config self) "flatUserScale");
  _ ← callRoutine
        (fun raw flat => ip_isr_flatCorrection raw flat flatScalingType flatUserScale)
        rawMaskedImage;
  goodBBox ← gets (fun w => view_getBBox (getMaskedImage (exposure w)) rawMaskedImage);
  callSetEdgeBits goodBBox (getPlaneBitMask "EDGE").

(** *** Vocabulary of the properties *)

(** The per-axis extent differences [nx] and [ny] of line 51. *)
Definition trimX (rawExposure calibExposure : Exposure) : Z :=
  getWidth (getBBox rawExposure) - getWidth (getBBox calibExposure).

Definition trimY (rawExposure calibExposure : Exposure) : Z :=
  getHeight (getBBox rawExposure) - getHeight (getBBox calibExposure).

(** Asymmetric, odd or negative trim. *)
Definition malformed (rawExposure calibExposure : Exposure) : Prop :=
  let nx := trimX rawExposure calibExposure in
  let ny := trimY rawExposure calibExposure in
  nx <> ny \/ (nx = ny /\ Z.odd nx = true) \/ nx < 0.

(** The raw exposure is [W] x [H] and the calibration exposure is smaller
    by [k] pixels on every side. *)
Definition trimmedBy (k W H : Z) (w : World) : Prop :=
  getDimensions (getBBox (exposure w)) = mkExtent W H /\
  getDimensions (getBBox (calibExposure w)) = mkExtent (W - 2 * k) (H - 2 * k).

(** Pixels of a [W] x [H] image, LOCAL coordinates: all of them, those at
    least [k] pixels away from every edge, and those within [k] pixels of
    an edge. *)
Definition inImage (W H x y : Z) : Prop := 0 <= x < W /\ 0 <= y < H.

Definition interior (k W H x y : Z) : Prop := k <= x < W - k /\ k <= y < H - k.

Definition nearEdge (k W H x y : Z) : Prop :=
  inImage W H x y /\ (x < k \/ W - k <= x \/ y < k \/ H - k <= y).

(** The view [k:-k, k:-k] of a [W] x [H] image. *)
Definition marginView (k W H : Z) : View :=
  mkView (mkBox (mkPoint k k) (mkExtent (W - 2 * k) (H - 2 * k))).

Definition hasBit (m : N) (plane : N) : Prop := N.testbit m plane = true.

(** [after] is [before] with the pixels at least [k] away from every edge
    replaced by those of [out] (a masked image in the coordinates of the
    view [k:-k, k:-k]); the other pixels keep their image value, and their
    mask is unchanged or has gained the EDGE bit mask. *)
Definition onlyInteriorCorrected (k W H : Z) (before out after : MaskedImage) : Prop :=
  forall x y,
    (interior k W H x y ->
     mi_image after x y = mi_image out (x - k) (y - k) /\
     mi_mask after x y = mi_mask out (x - k) (y - k)) /\
    (~ interior k W H x y ->
     mi_image after x y = mi_image before x y /\
     (mi_mask after x y = mi_mask before x y \/
      mi_mask after x y = N.lor (mi_mask before x y) (getPlaneBitMask "EDGE"))).

(** The class statement of lines 58-62: its base class, the configuration
    fields its body declares, and the methods its body defines.  The body
    of [DecamCpIsrConfig] holds the method [setDefaults] and no field. *)
Record ClassDef : Type := mkClass {
  cls_bases : list string;
  cls_fields : list string;
  cls_methods : list string
}.

Definition DecamCpIsrConfig : ClassDef :=
  mkClass ["DecamIsrConfig"] [] ["setDefaults"].

(** The fields of a configuration class: those it inherits and those its
    body declares. *)
Definition schema (cls : ClassDef) (inherited : gset string) : gset string :=
  inherited ∪ list_to_set (cls_fields cls).

(** The attributes a configuration has after an update and had not
    before. *)
Definition newAttributes (before after : gmap string value) : gset string :=
  dom after ∖ dom before.

(** A run from [w] with result [res] left the calibration exposure as it
    was, and changed nothing of the raw exposure but its two planes; it
    returned [None] or raised. *)
Definition framed (w : World) (res : outcome unit * World) : Prop :=
  calibExposure (snd res) = calibExposure w /\
  exp_info (exposure (snd res)) = exp_info (exposure w) /\
  getBBox (exposure (snd res)) = getBBox (exposure w) /\
  (fst res = Returns tt \/ exists e, fst res = Raises e).

(** What a correction call amounts to for a [W] x [H] raw exposure and a
    trim of [k]: the routine works through the view [k:-k, k:-k]; when it
    returned, the pixels outside the view are flagged. *)
Definition correctInterior
  (routine : MaskedImage -> MaskedImage -> outcome unit * (MaskedImage * MaskedImage))
  (k W H : Z) : M unit :=
  fun w =>
    let raw := getMaskedImage (exposure w) in
    let calib := getMaskedImage (calibExposure w) in
    let v := marginView k W H in
    let r := routine (readView raw v) calib in
    let corrected := writeView raw v (fst (snd r)) in
    let calib' := mkExposure (exp_info (calibExposure w)) (overwrite calib (snd (snd r))) in
    match fst r with
    | Returns _ =>
        (Returns tt,
         mkWorld (mkExposure (exp_info (exposure w))
                             (setEdgeBits corrected (view_getBBox raw v)
                                          (getPlaneBitMask "EDGE")))
                 calib')
    | Raises e =>
        (Raises e, mkWorld (mkExposure (exp_info (exposure w)) corrected) calib')
    end.

(** ** Properties *)

(** *** Boxes *)

Lemma contains_spec b x y :
  contains b x y = true <->
  getBeginX b <= x < getEndX b /\ getBeginY b <= y < getEndY b.
Proof.
  unfold contains. rewrite !andb_true_iff, !Z.leb_le, !Z.ltb_lt. lia.
Qed.

Lemma contains_false b x y :
  contains b x y = false <->
  (x < getBeginX b \/ getEndX b <= x \/ y < getBeginY b \/ getEndY b <= y).
Proof.
  rewrite <- not_true_iff_false, contains_spec. lia.
Qed.

(** *** The edge-trim computation *)

(** The three assertions, in the order of the source. *)
Lemma computeEdgeSize_cases rawExposure calibExposure :
  let nx := trimX rawExposure calibExposure in
  let ny := trimY rawExposure calibExposure in
  _computeEdgeSize rawExposure calibExposure =
  if negb (nx =? ny)
  then Raises (AssertionError "Exposure is trimmed differently in X and Y")
  else if negb (nx mod 2 =? 0)
  then Raises (AssertionError "Exposure is trimmed unevenly in X")
  else if negb (nx >=? 0)
  then Raises (AssertionError "Calibration image is larger than raw data")
  else Returns (nx / 2).
Proof.
  cbv zeta. unfold _computeEdgeSize, trimX, trimY, getWidth, getHeight, extent_sub.
  cbn [ex ey].
  set (nx := _ - _). set (ny := _ - _).
  destruct (nx =? ny), (nx mod 2 =? 0), (nx >=? 0); reflexivity.
Qed.

Lemma odd_mod2 n : Z.odd n = true <-> n mod 2 <> 0.
Proof.
  rewrite Zmod_odd. destruct (Z.odd n); split; intros; try easy.
Qed.

Lemma computeEdgeSize_trimmed k W H w :
  0 <= k -> trimmedBy k W H w ->
  _computeEdgeSize (exposure w) (calibExposure w) = Returns k.
Proof.
  intros Hk [Hr Hc]. rewrite computeEdgeSize_cases. cbv zeta.
  unfold trimX, trimY, getWidth, getHeight. rewrite Hr, Hc. cbn [ex ey].
  replace (W - (W - 2 * k)) with (k * 2) by lia.
  replace (H - (H - 2 * k)) with (k * 2) by lia.
  rewrite Z.eqb_refl, Z_mod_mult, Z_div_mult by lia. cbn [negb Z.eqb].
  destruct (k * 2 >=? 0) eqn:E; [reflexivity|]. lia.
Qed.

Lemma computeEdgeSize_malformed rawExposure calibExposure :
  malformed rawExposure calibExposure ->
  exists msg, _computeEdgeSize rawExposure calibExposure = Raises (AssertionError msg).
Proof.
  unfold malformed. cbv zeta. intros Hm. rewrite computeEdgeSize_cases. cbv zeta.
  set (nx := trimX _ _) in *. set (ny := trimY _ _) in *.
  destruct (nx =? ny) eqn:E1; cbn [negb]; [|eauto].
  apply Z.eqb_eq in E1.
  destruct (nx mod 2 =? 0) eqn:E2; cbn [negb]; [|eauto].
  apply Z.eqb_eq in E2.
  destruct (nx >=? 0) eqn:E3; cbn [negb]; [|eauto].
  exfalso. destruct Hm as [Hm | [[_ Hm] | Hm]]; [lia | | lia].
  apply odd_mod2 in Hm. lia.
Qed.

Lemma computeEdgeSize_wellformed rawExposure calibExposure :
  ~ malformed rawExposure calibExposure ->
  _computeEdgeSize rawExposure calibExposure =
  Returns (trimX rawExposure calibExposure / 2).
Proof.
  unfold malformed. cbv zeta. intros Hm. rewrite computeEdgeSize_cases. cbv zeta.
  set (nx := trimX _ _) in *. set (ny := trimY _ _) in *.
  destruct (nx =? ny) eqn:E1; cbn [negb].
  2:{ apply Z.eqb_neq in E1. tauto. }
  apply Z.eqb_eq in E1.
  destruct (nx mod 2 =? 0) eqn:E2; cbn [negb].
  2:{ apply Z.eqb_neq in E2. apply odd_mod2 in E2. tauto. }
  destruct (nx >=? 0) eqn:E3; cbn [negb]; [reflexivity|].
  exfalso. apply Hm. right. right. lia.
Qed.

(** *** Views *)

Lemma sliceLOCAL_margin (raw : MaskedImage) k W H :
  0 < k -> getDimensions (mi_bbox raw) = mkExtent W H ->
  sliceLOCAL raw (k, - k) (k, - k) = marginView k W H.
Proof.
  intros Hk Hd. unfold sliceLOCAL, marginView, handleNegativeIndex, getWidth, getHeight.
  rewrite Hd. cbn [fst snd ex ey].
  destruct (k <? 0) eqn:E1; [lia|]. destruct (- k <? 0) eqn:E2; [|lia].
  unfold point_diff. cbn [px py]. do 3 f_equal; lia.
Qed.

Lemma wholeImage_margin (raw : MaskedImage) W H :
  getDimensions (mi_bbox raw) = mkExtent W H ->
  wholeImage raw = marginView 0 W H.
Proof.
  intros Hd. unfold wholeImage, marginView. rewrite Hd. do 3 f_equal; lia.
Qed.

Lemma chosen_view (raw : MaskedImage) k W H :
  0 <= k -> getDimensions (mi_bbox raw) = mkExtent W H ->
  (if k >? 0 then sliceLOCAL raw (k, - k) (k, - k) else wholeImage raw)
  = marginView k W H.
Proof.
  intros Hk Hd. destruct (k >? 0) eqn:E.
  - apply sliceLOCAL_margin; [lia|assumption].
  - assert (k = 0) as -> by lia. apply wholeImage_margin; assumption.
Qed.

(** The exposure's masked image seen through the view of all its pixels is
    that masked image. *)
Lemma readView_wholeImage (raw : MaskedImage) : readView raw (wholeImage raw) = raw.
Proof.
  destruct raw as [[[bx by_] d] im ms].
  unfold readView, view_getBBox, wholeImage, getBeginX, getBeginY. cbn.
  rewrite !Z.add_0_r. reflexivity.
Qed.

(** *** The two methods, for a well-formed pair and for a malformed one *)

Lemma biasCorrection_run self k W H w :
  0 <= k -> trimmedBy k W H w ->
  biasCorrection self w = correctInterior ip_isr_biasCorrection k W H w.
Proof.
  intros Hk Ht. unfold biasCorrection, mbind, M_bind, call_computeEdgeSize.
  rewrite (computeEdgeSize_trimmed k W H w Hk Ht).
  assert (Hv : (if k >? 0
                then gets (fun w => sliceLOCAL (getMaskedImage (exposure w)) (k, - k) (k, - k))
                else gets (fun w => wholeImage (getMaskedImage (exposure w)))) w
               = (Returns (marginView k W H), w)).
  { rewrite <- (chosen_view (getMaskedImage (exposure w)) k W H Hk (proj1 Ht)).
    destruct (k >? 0); reflexivity. }
  rewrite Hv. unfold correctInterior, callRoutine, callSetEdgeBits, gets. cbv zeta.
  destruct (ip_isr_biasCorrection _ _) as [[[]|e] [a b]]; reflexivity.
Qed.

Lemma flatCorrection_run self k W H w flatScalingType flatUserScale :
  0 <= k -> trimmedBy k W H w ->
  config self !! "flatScalingType" = Some flatScalingType ->
  config self !! "flatUserScale" = Some flatUserScale ->
  flatCorrection self w =
  correctInterior
    (fun raw flat => ip_isr_flatCorrection raw flat flatScalingType flatUserScale)
    k W H w.
Proof.
  intros Hk Ht Hs Hu. unfold flatCorrection, mbind, M_bind, call_computeEdgeSize.
  rewrite (computeEdgeSize_trimmed k W H w Hk Ht).
  assert (Hv : (if k >? 0
                then gets (fun w => sliceLOCAL (getMaskedImage (exposure w)) (k, - k) (k, - k))
                else gets (fun w => wholeImage (getMaskedImage (exposure w)))) w
               = (Returns (marginView k W H), w)).
  { rewrite <- (chosen_view (getMaskedImage (exposure w)) k W H Hk (proj1 Ht)).
    destruct (k >? 0); reflexivity. }
  rewrite Hv. unfold lift, getattr. rewrite Hs, Hu.
  unfold correctInterior, callRoutine, callSetEdgeBits, gets. cbv zeta.
  destruct (ip_isr_flatCorrection _ _ _ _) as [[[]|e] [a b]]; reflexivity.
Qed.

Lemma biasCorrection_raises self w e :
  _computeEdgeSize (exposure w) (calibExposure w) = Raises e ->
  biasCorrection self w = (Raises e, w).
Proof.
  intros He. unfold biasCorrection, mbind, M_bind, call_computeEdgeSize.
  rewrite He. reflexivity.
Qed.

Lemma flatCorrection_raises self w e :
  _computeEdgeSize (exposure w) (calibExposure w) = Raises e ->
  flatCorrection self w = (Raises e, w).
Proof.
  intros He. unfold flatCorrection, mbind, M_bind, call_computeEdgeSize.
  rewrite He. reflexivity.
Qed.

(** *** Pixels after a correction *)

Lemma contains_marginView k W H x y :
  contains (view_box (marginView k W H)) x y = true <-> interior k W H x y.
Proof.
  rewrite contains_spec. unfold interior, marginView, getEndX, getEndY,
    getBeginX, getBeginY, getWidth, getHeight. cbn. lia.
Qed.

Lemma contains_marginView_false k W H x y :
  contains (view_box (marginView k W H)) x y = false <-> ~ interior k W H x y.
Proof.
  rewrite <- contains_marginView. destruct (contains _ _ _); split; congruence.
Qed.

(** In LOCAL coordinates the good box of [setEdgeBits] is the view, and
    the box of the masked image is the whole image. *)
Lemma contains_goodBBox (raw : MaskedImage) k W H x y :
  contains (view_getBBox raw (marginView k W H))
           (getBeginX (mi_bbox raw) + x) (getBeginY (mi_bbox raw) + y) = true
  <-> interior k W H x y.
Proof.
  rewrite contains_spec. unfold interior, view_getBBox, marginView, getEndX, getEndY,
    getBeginX, getBeginY, getWidth, getHeight. cbn. lia.
Qed.

Lemma contains_own_bbox (raw : MaskedImage) W H x y :
  getDimensions (mi_bbox raw) = mkExtent W H ->
  (contains (mi_bbox raw)
            (getBeginX (mi_bbox raw) + x) (getBeginY (mi_bbox raw) + y) = true
   <-> inImage W H x y).
Proof.
  intros Hd. rewrite contains_spec. unfold inImage, getEndX, getEndY,
    getBeginX, getBeginY, getWidth, getHeight. rewrite Hd. cbn. lia.
Qed.

Lemma testbit_getPlaneBitMask name : hasBit (getPlaneBitMask name) (getMaskPlane name).
Proof.
  unfold hasBit, getPlaneBitMask. rewrite N.shiftl_1_l. apply N.pow2_bits_true.
Qed.

Lemma hasBit_lor_l m e plane : hasBit m plane -> hasBit (N.lor m e) plane.
Proof. unfold hasBit. rewrite N.lor_spec. intros ->. reflexivity. Qed.

Lemma hasBit_lor_r m e plane : hasBit e plane -> hasBit (N.lor m e) plane.
Proof. unfold hasBit. rewrite N.lor_spec. intros ->. apply orb_true_r. Qed.

Section CorrectInterior.

Variable routine : MaskedImage -> MaskedImage -> outcome unit * (MaskedImage * MaskedImage).
Variables (k W H : Z) (w : World).

Let raw := getMaskedImage (exposure w).
Let calib := getMaskedImage (calibExposure w).
Let r := routine (readView raw (marginView k W H)) calib.
Let after := getMaskedImage (exposure (snd (correctInterior routine k W H w))).

Lemma correctInterior_outcome : fst (correctInterior routine k W H w) = fst r.
Proof.
  unfold correctInterior. cbv zeta. fold raw calib r.
  destruct (fst r) as [[]|e]; reflexivity.
Qed.

Lemma correctInterior_calib :
  calibExposure (snd (correctInterior routine k W H w)) =
  mkExposure (exp_info (calibExposure w)) (overwrite calib (snd (snd r))).
Proof.
  unfold correctInterior. cbv zeta. fold raw calib r.
  destruct (fst r) as [[]|e]; reflexivity.
Qed.

Lemma correctInterior_frame :
  exp_info (exposure (snd (correctInterior routine k W H w))) = exp_info (exposure w) /\
  mi_bbox after = mi_bbox raw.
Proof.
  unfold after, correctInterior. cbv zeta. fold raw calib r.
  destruct (fst r) as [[]|e]; split; reflexivity.
Qed.

Lemma correctInterior_interior x y :
  interior k W H x y ->
  mi_image after x y = mi_image (fst (snd r)) (x - k) (y - k) /\
  mi_mask after x y = mi_mask (fst (snd r)) (x - k) (y - k).
Proof.
  intros Hi. unfold after, correctInterior. cbv zeta. fold raw calib r.
  pose proof (proj2 (contains_marginView k W H x y) Hi) as Hc.
  pose proof (proj2 (contains_goodBBox raw k W H x y) Hi) as Hg.
  destruct (fst r) as [[]|e]; cbn [snd exposure getMaskedImage setEdgeBits writeView
    mi_image mi_mask mi_bbox]; rewrite ?Hc, ?Hg, ?andb_false_r; split; reflexivity.
Qed.

Lemma correctInterior_image_outside x y :
  ~ interior k W H x y -> mi_image after x y = mi_image raw x y.
Proof.
  intros Hi. unfold after, correctInterior. cbv zeta. fold raw calib r.
  pose proof (proj2 (contains_marginView_false k W H x y) Hi) as Hc.
  destruct (fst r) as [[]|e]; cbn [snd exposure getMaskedImage setEdgeBits writeView
    mi_image mi_mask mi_bbox]; rewrite ?Hc; reflexivity.
Qed.

Lemma correctInterior_mask_outside x y :
  ~ interior k W H x y ->
  mi_mask after x y = mi_mask raw x y \/
  mi_mask after x y = N.lor (mi_mask raw x y) (getPlaneBitMask "EDGE").
Proof.
  intros Hi. unfold after, correctInterior. cbv zeta. fold raw calib r.
  pose proof (proj2 (contains_marginView_false k W H x y) Hi) as Hc.
  destruct (fst r) as [[]|e]; cbn [snd exposure getMaskedImage setEdgeBits writeView
    mi_image mi_mask mi_bbox]; rewrite ?Hc; [|left; reflexivity].
  destruct (_ && _); [right|left]; reflexivity.
Qed.

Lemma correctInterior_onlyInterior :
  onlyInteriorCorrected k W H raw (fst (snd r)) after.
Proof.
  intros x y. split.
  - apply correctInterior_interior.
  - intros Hi. split.
    + apply correctInterior_image_outside, Hi.
    + apply correctInterior_mask_outside, Hi.
Qed.

(** When the routine returned, a pixel within [k] of an edge has its old
    mask with the EDGE bit mask added. *)
Lemma correctInterior_mask_nearEdge x y :
  getDimensions (mi_bbox raw) = mkExtent W H ->
  (exists u, fst r = Returns u) ->
  nearEdge k W H x y ->
  mi_mask after x y = N.lor (mi_mask raw x y) (getPlaneBitMask "EDGE").
Proof.
  intros Hd [u Hu] [Hin He].
  assert (Hi : ~ interior k W H x y) by (unfold interior; lia).
  unfold after, correctInterior. cbv zeta. fold raw calib r. rewrite Hu.
  pose proof (proj2 (contains_marginView_false k W H x y) Hi) as Hc.
  cbn [snd exposure getMaskedImage setEdgeBits writeView mi_image mi_mask mi_bbox].
  rewrite Hc.
  rewrite (proj2 (contains_own_bbox raw W H x y Hd) Hin).
  destruct (contains (view_getBBox raw _) _ _) eqn:Hg; [|reflexivity].
  apply contains_goodBBox in Hg. contradiction.
Qed.

(** When the routine returned, a pixel of the image that is not within
    [k] of an edge, or any position outside the image, has the mask the
    routine left. *)
Lemma correctInterior_mask_not_nearEdge x y :
  getDimensions (mi_bbox raw) = mkExtent W H ->
  ~ nearEdge k W H x y -> ~ interior k W H x y ->
  mi_mask after x y = mi_mask raw x y.
Proof.
  intros Hd Hn Hi.
  assert (Hout : ~ inImage W H x y) by (unfold nearEdge, interior, inImage in *; lia).
  unfold after, correctInterior. cbv zeta. fold raw calib r.
  pose proof (proj2 (contains_marginView_false k W H x y) Hi) as Hc.
  destruct (fst r) as [[]|e]; cbn [snd exposure getMaskedImage setEdgeBits writeView
    mi_image mi_mask mi_bbox]; rewrite ?Hc; [|reflexivity].
  destruct (contains (mi_bbox raw) _ _) eqn:Hb; [|reflexivity].
  apply (contains_own_bbox raw W H x y Hd) in Hb. contradiction.
Qed.

End CorrectInterior.

(** *** The frame of a correction call, for any pair of exposures *)

Lemma overwrite_same (m : MaskedImage) : overwrite m m = m.
Proof. destruct m. reflexivity. Qed.

Lemma callRoutine_frame routine v w :
  (forall a b, snd (snd (routine a b)) = b) ->
  let w' := snd (callRoutine routine v w) in
  calibExposure w' = calibExposure w /\
  exp_info (exposure w') = exp_info (exposure w) /\
  getBBox (exposure w') = getBBox (exposure w).
Proof.
  intros Hro. unfold callRoutine. cbn. rewrite Hro, overwrite_same.
  destruct (calibExposure w). repeat split.
Qed.

Lemma framed_raise w e : framed w (Raises e, w).
Proof. unfold framed. cbn. repeat split. right. eauto. Qed.

Lemma correct_and_flag_framed routine (view : World -> View) w :
  (forall a b, snd (snd (routine a b)) = b) ->
  framed w
    ((rawMaskedImage ← gets view;
      _ ← callRoutine routine rawMaskedImage;
      goodBBox ← gets (fun w => view_getBBox (getMaskedImage (exposure w)) rawMaskedImage);
      callSetEdgeBits goodBBox (getPlaneBitMask "EDGE")) w).
Proof.
  intros Hro. unfold mbind, M_bind, gets.
  pose proof (callRoutine_frame routine (view w) w Hro) as Hf. cbv zeta in Hf.
  destruct (callRoutine routine (view w) w) as [[[]|e] w1]; cbn [snd] in Hf;
    destruct Hf as (Hc & Hi & Hb); unfold framed, callSetEdgeBits; cbn.
  - repeat split; try assumption. left. reflexivity.
  - repeat split; try assumption. right. eauto.
Qed.

Lemma biasCorrection_framed self w :
  (forall a b, snd (snd (ip_isr_biasCorrection a b)) = b) ->
  framed w (biasCorrection self w).
Proof.
  intros Hro. unfold biasCorrection.
  unfold mbind at 1. unfold M_bind at 1. unfold call_computeEdgeSize.
  destruct (_computeEdgeSize _ _) as [nEdge|e]; [|apply framed_raise].
  destruct (nEdge >? 0); apply (correct_and_flag_framed _ _ w Hro).
Qed.

Lemma flatCorrection_framed self w :
  (forall a b s u, snd (snd (ip_isr_flatCorrection a b s u)) = b) ->
  framed w (flatCorrection self w).
Proof.
  intros Hro. unfold flatCorrection.
  unfold mbind at 1. unfold M_bind at 1. unfold call_computeEdgeSize.
  destruct (_computeEdgeSize _ _) as [nEdge|e]; [|apply framed_raise].
  set (view := if nEdge >? 0 then _ else _).
  unfold mbind at 1. unfold M_bind at 1.
  assert (Hv : exists v, view w = (Returns v, w)).
  { subst view. destruct (nEdge >? 0); unfold gets; eauto. }
  destruct Hv as [v ->].
  unfold mbind at 1. unfold M_bind at 1. unfold lift at 1, getattr at 1.
  destruct (config self !! "flatScalingType") as [st|]; [|apply framed_raise].
  unfold mbind at 1. unfold M_bind at 1. unfold lift at 1, getattr at 1.
  destruct (config self !! "flatUserScale") as [us|]; [|apply framed_raise].
  pose proof (correct_and_flag_framed
                (fun raw flat => ip_isr_flatCorrection raw flat st us)
                (fun _ => v) w (fun a b => Hro a b st us)) as Hf.
  exact Hf.
Qed.

(** C1: a calibration exposure smaller than the raw exposure by [2 * k]
    along both axes, [k >= 0], gives the edge size [k]. *)
Theorem computeEdgeSize_returns_half_difference
  (rawExposure calibExposure : Exposure) (W H k : Z) :
  0 <= k ->
  getDimensions (getBBox rawExposure) = mkExtent W H ->
  getDimensions (getBBox calibExposure) = mkExtent (W - 2 * k) (H - 2 * k) ->
  _computeEdgeSize rawExposure calibExposure = Returns k.
Proof.
  intros Hk Hr Hc.
  apply (computeEdgeSize_trimmed k W H (mkWorld rawExposure calibExposure) Hk).
  split; assumption.
Qed.

(** C2: [_computeEdgeSize] raises, with an assertion error, exactly when
    the trim is asymmetric, symmetric but odd, or negative; otherwise it
    returns half of the difference. *)
Theorem computeEdgeSize_raises_iff_malformed (rawExposure calibExposure : Exposure) :
  (malformed rawExposure calibExposure <->
   exists e, _computeEdgeSize rawExposure calibExposure = Raises e) /\
  (forall e, _computeEdgeSize rawExposure calibExposure = Raises e ->
             exists msg, e = AssertionError msg) /\
  (forall n, _computeEdgeSize rawExposure calibExposure = Returns n ->
             ~ malformed rawExposure calibExposure /\
             n = trimX rawExposure calibExposure / 2).
Proof.
  assert (Hdec : malformed rawExposure calibExposure \/
                 ~ malformed rawExposure calibExposure).
  { unfold malformed. cbv zeta. destruct (Z.odd _); lia. }
  split; [split|split].
  - intros Hm. destruct (computeEdgeSize_malformed _ _ Hm) as [msg ->]. eauto.
  - intros [e He]. destruct Hdec as [Hm|Hm]; [assumption|].
    rewrite (computeEdgeSize_wellformed _ _ Hm) in He. discriminate.
  - intros e He. destruct Hdec as [Hm|Hm].
    + destruct (computeEdgeSize_malformed _ _ Hm) as [msg Hmsg].
      rewrite Hmsg in He. injection He as <-. eauto.
    + rewrite (computeEdgeSize_wellformed _ _ Hm) in He. discriminate.
  - intros n Hn. destruct Hdec as [Hm|Hm].
    + destruct (computeEdgeSize_malformed _ _ Hm) as [msg Hmsg].
      rewrite Hmsg in Hn. discriminate.
    + rewrite (computeEdgeSize_wellformed _ _ Hm) in Hn.
      injection Hn as <-. split; [assumption|reflexivity].
Qed.

(** C3: for a well-formed pair with trim [k], each method hands the
    routine of the framework the raw masked image seen through the view
    [k:-k, k:-k], which has the dimensions of the calibration exposure;
    the outcome of the method is that of the routine, interior pixels are
    what the routine left, and no pixel outside the view is corrected. *)
Theorem corrections_apply_to_interior
  (self : DecamCpIsrTask) (w : World) (W H k : Z) (flatScalingType flatUserScale : value) :
  0 <= k ->
  trimmedBy k W H w ->
  config self !! "flatScalingType" = Some flatScalingType ->
  config self !! "flatUserScale" = Some flatUserScale ->
  let raw := getMaskedImage (exposure w) in
  let calib := getMaskedImage (calibExposure w) in
  let region := readView raw (marginView k W H) in
  (getDimensions (mi_bbox region) = getDimensions (mi_bbox calib) /\
   getMin (mi_bbox region) = point_shift (getMin (mi_bbox raw)) (mkExtent k k) /\
   forall x y, mi_image region x y = mi_image raw (k + x) (k + y) /\
               mi_mask region x y = mi_mask raw (k + x) (k + y)) /\
  (let r := ip_isr_biasCorrection region calib in
   fst (biasCorrection self w) = fst r /\
   onlyInteriorCorrected k W H raw (fst (snd r))
     (getMaskedImage (exposure (snd (biasCorrection self w))))) /\
  (let r := ip_isr_flatCorrection region calib flatScalingType flatUserScale in
   fst (flatCorrection self w) = fst r /\
   onlyInteriorCorrected k W H raw (fst (snd r))
     (getMaskedImage (exposure (snd (flatCorrection self w))))).
Proof.
  intros Hk Ht Hs Hu. cbv zeta. split; [|split].
  - destruct Ht as [Hr Hc]. unfold getBBox in Hc. rewrite Hc.
    repeat split.
  - rewrite (biasCorrection_run self k W H w Hk Ht). split.
    + apply correctInterior_outcome.
    + apply correctInterior_onlyInterior.
  - rewrite (flatCorrection_run self k W H w _ _ Hk Ht Hs Hu). split.
    + apply (correctInterior_outcome
               (fun raw flat => ip_isr_flatCorrection raw flat flatScalingType flatUserScale)).
    + apply (correctInterior_onlyInterior
               (fun raw flat => ip_isr_flatCorrection raw flat flatScalingType flatUserScale)).
Qed.

(** C4: after a bias correction with trim [k > 0] that the routine of the
    framework completed, every pixel within [k] of an edge has its former
    mask with the EDGE bit added, interior pixels have the image value and
    the mask the routine produced, and, the routine clearing no mask bit of
    the region, no mask bit of any pixel is cleared. *)
Theorem biasCorrection_flags_border
  (self : DecamCpIsrTask) (w : World) (W H k : Z) :
  0 < k ->
  trimmedBy k W H w ->
  let raw := getMaskedImage (exposure w) in
  let region := readView raw (marginView k W H) in
  let r := ip_isr_biasCorrection region (getMaskedImage (calibExposure w)) in
  fst r = Returns tt ->
  (forall x y plane, inImage (W - 2 * k) (H - 2 * k) x y ->
     hasBit (mi_mask region x y) plane -> hasBit (mi_mask (fst (snd r)) x y) plane) ->
  let after := getMaskedImage (exposure (snd (biasCorrection self w))) in
  fst (biasCorrection self w) = Returns tt /\
  (forall x y, nearEdge k W H x y ->
     hasBit (mi_mask after x y) (getMaskPlane "EDGE") /\
     mi_mask after x y = N.lor (mi_mask raw x y) (getPlaneBitMask "EDGE") /\
     mi_image after x y = mi_image raw x y) /\
  (forall x y plane, hasBit (mi_mask raw x y) plane -> hasBit (mi_mask after x y) plane) /\
  (forall x y, interior k W H x y ->
     mi_image after x y = mi_image (fst (snd r)) (x - k) (y - k) /\
     mi_mask after x y = mi_mask (fst (snd r)) (x - k) (y - k)).
Proof.
  intros Hk Ht. cbv zeta. intros Hret Hkeep.
  assert (Hk0 : 0 <= k) by lia.
  rewrite (biasCorrection_run self k W H w Hk0 Ht).
  pose proof (proj1 Ht) as Hd. unfold getBBox in Hd.
  assert (Hnear : forall x y, nearEdge k W H x y ->
            mi_mask (getMaskedImage (exposure (snd (correctInterior ip_isr_biasCorrection k W H w)))) x y
            = N.lor (mi_mask (getMaskedImage (exposure w)) x y) (getPlaneBitMask "EDGE")).
  { intros x y Hn. apply correctInterior_mask_nearEdge; eauto. }
  split; [|split; [|split]].
  - rewrite correctInterior_outcome. exact Hret.
  - intros x y Hn. rewrite (Hnear x y Hn). split; [|split; [reflexivity|]].
    + apply hasBit_lor_r, testbit_getPlaneBitMask.
    + apply correctInterior_image_outside. unfold nearEdge, interior in *. lia.
  - intros x y plane Hb.
    assert (Hcases : interior k W H x y \/ nearEdge k W H x y \/
                     (~ nearEdge k W H x y /\ ~ interior k W H x y)).
    { unfold interior, nearEdge, inImage. lia. }
    destruct Hcases as [Hi | [Hn | [Hn Hi]]].
    + rewrite (proj2 (correctInterior_interior ip_isr_biasCorrection k W H w x y Hi)).
      apply Hkeep.
      * unfold interior, inImage in *. lia.
      * unfold readView, marginView. cbn.
        replace (k + (x - k)) with x by lia. replace (k + (y - k)) with y by lia.
        exact Hb.
    + rewrite (Hnear x y Hn). apply hasBit_lor_l, Hb.
    + rewrite (correctInterior_mask_not_nearEdge ip_isr_biasCorrection k W H w x y Hd Hn Hi).
      exact Hb.
  - intros x y Hi. apply correctInterior_interior, Hi.
Qed.

(** C5: with a flat of the dimensions of the raw exposure the routine of
    the framework receives the whole masked image of the raw exposure, and
    every pixel of the image ends with the value and the mask the routine
    left: the edge marking adds no bit. *)
Theorem flatCorrection_same_size_corrects_whole_image
  (self : DecamCpIsrTask) (w : World) (flatScalingType flatUserScale : value) :
  getDimensions (getBBox (calibExposure w)) = getDimensions (getBBox (exposure w)) ->
  config self !! "flatScalingType" = Some flatScalingType ->
  config self !! "flatUserScale" = Some flatUserScale ->
  let raw := getMaskedImage (exposure w) in
  let r := ip_isr_flatCorrection raw (getMaskedImage (calibExposure w))
                                 flatScalingType flatUserScale in
  let after := getMaskedImage (exposure (snd (flatCorrection self w))) in
  _computeEdgeSize (exposure w) (calibExposure w) = Returns 0 /\
  fst (flatCorrection self w) = fst r /\
  (forall x y, inImage (getWidth (mi_bbox raw)) (getHeight (mi_bbox raw)) x y ->
     mi_image after x y = mi_image (fst (snd r)) x y /\
     mi_mask after x y = mi_mask (fst (snd r)) x y) /\
  (forall x y, ~ inImage (getWidth (mi_bbox raw)) (getHeight (mi_bbox raw)) x y ->
     mi_image after x y = mi_image raw x y /\
     mi_mask after x y = mi_mask raw x y).
Proof.
  intros Hsame Hs Hu. cbv zeta.
  set (W := getWidth (mi_bbox (getMaskedImage (exposure w)))).
  set (H := getHeight (mi_bbox (getMaskedImage (exposure w)))).
  assert (Hd : getDimensions (mi_bbox (getMaskedImage (exposure w))) = mkExtent W H).
  { subst W H. unfold getWidth, getHeight.
    destruct (getDimensions (mi_bbox (getMaskedImage (exposure w)))). reflexivity. }
  assert (Ht : trimmedBy 0 W H w).
  { split; [exact Hd|]. rewrite Hsame. unfold getBBox. rewrite Hd. f_equal; lia. }
  split; [apply (computeEdgeSize_trimmed 0 W H w); [lia|exact Ht]|].
  rewrite (flatCorrection_run self 0 W H w _ _ (Z.le_refl 0) Ht Hs Hu).
  pose proof (correctInterior_outcome
    (fun raw flat => ip_isr_flatCorrection raw flat flatScalingType flatUserScale)
    0 W H w) as Ho.
  pose proof (correctInterior_interior
    (fun raw flat => ip_isr_flatCorrection raw flat flatScalingType flatUserScale)
    0 W H w) as Hin.
  pose proof (correctInterior_image_outside
    (fun raw flat => ip_isr_flatCorrection raw flat flatScalingType flatUserScale)
    0 W H w) as Hio.
  pose proof (correctInterior_mask_not_nearEdge
    (fun raw flat => ip_isr_flatCorrection raw flat flatScalingType flatUserScale)
    0 W H w) as Hmo.
  rewrite <- (wholeImage_margin _ W H Hd), readView_wholeImage in Ho, Hin.
  split; [exact Ho|split].
  - intros x y Hxy. specialize (Hin x y). rewrite !Z.sub_0_r in Hin.
    apply Hin. unfold interior, inImage in *. lia.
  - intros x y Hxy. split.
    + apply Hio. unfold interior, inImage in *. lia.
    + apply Hmo; [exact Hd | |]; unfold nearEdge, interior, inImage in *; lia.
Qed.

(** C6: for a pair with asymmetric, odd or negative trim both methods raise
    the assertion error of [_computeEdgeSize], and the two exposures are as
    they were before the call. *)
Theorem malformed_geometry_aborts_before_mutation (self : DecamCpIsrTask) (w : World) :
  malformed (exposure w) (calibExposure w) ->
  exists msg,
    biasCorrection self w = (Raises (AssertionError msg), w) /\
    flatCorrection self w = (Raises (AssertionError msg), w).
Proof.
  intros Hm. destruct (computeEdgeSize_malformed _ _ Hm) as [msg Hmsg].
  exists msg. split.
  - apply biasCorrection_raises, Hmsg.
  - apply flatCorrection_raises, Hmsg.
Qed.

(** C8: the routines of the framework leaving their calibration argument
    as it is, a call of either method leaves the calibration exposure as it
    is, changes nothing of the raw exposure but its image and mask planes,
    and returns [None] (or raises). *)
Theorem corrections_leave_calibration_unchanged (self : DecamCpIsrTask) (w : World) :
  (forall a b, snd (snd (ip_isr_biasCorrection a b)) = b) ->
  (forall a b s u, snd (snd (ip_isr_flatCorrection a b s u)) = b) ->
  framed w (biasCorrection self w) /\ framed w (flatCorrection self w).
Proof.
  intros Hb Hf. split.
  - apply biasCorrection_framed, Hb.
  - apply flatCorrection_framed, Hf.
Qed.

(** C7: the two DECam scenarios.  For a 2048 x 4096 raw exposure, a
    2046 x 4094 bias gives the edge size 1, the routine works on the slice
    [1:-1, 1:-1], a 2046 x 4094 region whose pixel (x, y) is the pixel
    (1 + x, 1 + y) of the raw exposure, and the ring of width 1 is flagged;
    a 2040 x 4088 flat gives the edge size 4, the routine works on the
    2040 x 4088 region [4:-4, 4:-4] with the scaling type and user scale
    of the configuration, and the border of width 4 is flagged. *)
Theorem decam_trim_scenarios
  (self : DecamCpIsrTask) (w : World) (flatScalingType flatUserScale : value) :
  getDimensions (getBBox (exposure w)) = mkExtent 2048 4096 ->
  let raw := getMaskedImage (exposure w) in
  let calib := getMaskedImage (calibExposure w) in
  (getDimensions (getBBox (calibExposure w)) = mkExtent 2046 4094 ->
   let view := sliceLOCAL raw (1, - (1)) (1, - (1)) in
   let region := readView raw view in
   let r := ip_isr_biasCorrection region calib in
   let after := getMaskedImage (exposure (snd (biasCorrection self w))) in
   _computeEdgeSize (exposure w) (calibExposure w) = Returns 1 /\
   view_box view = mkBox (mkPoint 1 1) (mkExtent 2046 4094) /\
   (getDimensions (mi_bbox region) = mkExtent 2046 4094 /\
    getMin (mi_bbox region) = point_shift (getMin (mi_bbox raw)) (mkExtent 1 1) /\
    forall x y, mi_image region x y = mi_image raw (1 + x) (1 + y) /\
                mi_mask region x y = mi_mask raw (1 + x) (1 + y)) /\
   fst (biasCorrection self w) = fst r /\
   onlyInteriorCorrected 1 2048 4096 raw (fst (snd r)) after /\
   (fst r = Returns tt ->
    forall x y, nearEdge 1 2048 4096 x y ->
                hasBit (mi_mask after x y) (getMaskPlane "EDGE"))) /\
  (getDimensions (getBBox (calibExposure w)) = mkExtent 2040 4088 ->
   config self !! "flatScalingType" = Some flatScalingType ->
   config self !! "flatUserScale" = Some flatUserScale ->
   let view := sliceLOCAL raw (4, - (4)) (4, - (4)) in
   let region := readView raw view in
   let r := ip_isr_flatCorrection region calib flatScalingType flatUserScale in
   let after := getMaskedImage (exposure (snd (flatCorrection self w))) in
   _computeEdgeSize (exposure w) (calibExposure w) = Returns 4 /\
   view_box view = mkBox (mkPoint 4 4) (mkExtent 2040 4088) /\
   (getDimensions (mi_bbox region) = mkExtent 2040 4088 /\
    getMin (mi_bbox region) = point_shift (getMin (mi_bbox raw)) (mkExtent 4 4) /\
    forall x y, mi_image region x y = mi_image raw (4 + x) (4 + y) /\
                mi_mask region x y = mi_mask raw (4 + x) (4 + y)) /\
   fst (flatCorrection self w) = fst r /\
   onlyInteriorCorrected 4 2048 4096 raw (fst (snd r)) after /\
   (fst r = Returns tt ->
    forall x y, nearEdge 4 2048 4096 x y ->
                hasBit (mi_mask after x y) (getMaskPlane "EDGE"))).
Proof.
  intros Hr. cbv zeta. pose proof Hr as Hd. unfold getBBox in Hd. split.
  - intros Hc.
    assert (Ht : trimmedBy 1 2048 4096 w) by (split; [exact Hr|exact Hc]).
    rewrite (sliceLOCAL_margin _ 1 2048 4096 ltac:(lia) Hd).
    rewrite (biasCorrection_run self 1 2048 4096 w ltac:(lia) Ht).
    split; [apply (computeEdgeSize_trimmed 1 2048 4096 w); [lia|exact Ht]|].
    split; [reflexivity|].
    split; [split; [reflexivity | split; [reflexivity | intros x y; split; reflexivity]]|].
    split; [apply correctInterior_outcome|].
    split; [apply correctInterior_onlyInterior|].
    intros Hret x y Hn.
    rewrite (correctInterior_mask_nearEdge ip_isr_biasCorrection 1 2048 4096 w x y Hd);
      [apply hasBit_lor_r, testbit_getPlaneBitMask | eauto | exact Hn].
  - intros Hc Hs Hu.
    assert (Ht : trimmedBy 4 2048 4096 w) by (split; [exact Hr|exact Hc]).
    rewrite (sliceLOCAL_margin _ 4 2048 4096 ltac:(lia) Hd).
    rewrite (flatCorrection_run self 4 2048 4096 w _ _ ltac:(lia) Ht Hs Hu).
    split; [apply (computeEdgeSize_trimmed 4 2048 4096 w); [lia|exact Ht]|].
    split; [reflexivity|].
    split; [split; [reflexivity | split; [reflexivity | intros x y; split; reflexivity]]|].
    split; [apply (correctInterior_outcome
                     (fun raw flat => ip_isr_flatCorrection raw flat
                                        flatScalingType flatUserScale))|].
    split; [apply (correctInterior_onlyInterior
                     (fun raw flat => ip_isr_flatCorrection raw flat
                                        flatScalingType flatUserScale))|].
    intros Hret x y Hn.
    rewrite (correctInterior_mask_nearEdge
               (fun raw flat => ip_isr_flatCorrection raw flat
                                  flatScalingType flatUserScale)
               4 2048 4096 w x y Hd);
      [apply hasBit_lor_r, testbit_getPlaneBitMask | eauto | exact Hn].
Qed.

(** C9, as amended: the class [DecamCpIsrConfig] declares no field of its
    own, so its schema is the inherited one; on a configuration that has
    the two data product names, as the inherited schema must for the
    assignments to be accepted, [setDefaults] gives them the strings
    cpBias and cpFlat, leaves every other attribute as it was and adds no
    attribute. *)
Theorem setDefaults_assigns_inherited_product_names (self : gmap string value) :
  is_Some (self !! "biasDataProductName") ->
  is_Some (self !! "flatDataProductName") ->
  cls_fields DecamCpIsrConfig = [] /\
  (forall inherited, schema DecamCpIsrConfig inherited = inherited) /\
  setDefaults self !! "biasDataProductName" = Some (VStr "cpBias") /\
  setDefaults self !! "flatDataProductName" = Some (VStr "cpFlat") /\
  (forall name, name <> "biasDataProductName" -> name <> "flatDataProductName" ->
                setDefaults self !! name = self !! name) /\
  dom (setDefaults self) = dom self /\
  newAttributes self (setDefaults self) = ∅.
Proof.
  clear getMaskPlane ip_isr_biasCorrection ip_isr_flatCorrection.
  intros Hb Hf.
  assert (Hdom : dom (setDefaults self) = dom self).
  { unfold setDefaults. rewrite !dom_insert_L.
    apply elem_of_dom in Hb, Hf. apply set_eq. intros name.
    rewrite !elem_of_union, !elem_of_singleton. split; [|tauto].
    intros [-> | [-> | H]]; assumption. }
  split; [reflexivity|]. split.
  { intros inherited. unfold schema. cbn. apply set_eq. intros name.
    rewrite elem_of_union, elem_of_empty. tauto. }
  unfold setDefaults. split; [|split; [|split; [|split]]].
  - rewrite lookup_insert_ne by discriminate. apply lookup_insert_eq.
  - apply lookup_insert_eq.
  - intros name Hnb Hnf. rewrite !lookup_insert_ne by congruence. reflexivity.
  - exact Hdom.
  - unfold newAttributes. fold (setDefaults self). rewrite Hdom.
    apply set_eq. intros name. rewrite elem_of_difference, elem_of_empty. tauto.
Qed.

(** C10: the outcome of [_computeEdgeSize] is a function of the
    dimensions of the two bounding boxes; pixels, masks, box origins and
    the rest of the exposures have no influence. *)
Theorem computeEdgeSize_depends_on_dimensions_only
  (raw1 calib1 raw2 calib2 : Exposure) :
  getDimensions (getBBox raw1) = getDimensions (getBBox raw2) ->
  getDimensions (getBBox calib1) = getDimensions (getBBox calib2) ->
  _computeEdgeSize raw1 calib1 = _computeEdgeSize raw2 calib2 /\
  ((exists e, _computeEdgeSize raw1 calib1 = Raises e) <->
   (exists e, _computeEdgeSize raw2 calib2 = Raises e)).
Proof.
  intros Hr Hc.
  assert (E : _computeEdgeSize raw1 calib1 = _computeEdgeSize raw2 calib2).
  { unfold _computeEdgeSize. rewrite Hr, Hc. reflexivity. }
  split; [exact E|]. rewrite E. tauto.
Qed.

(** ** Further properties of [decamCpIsr.py] *)

(** *** More on a correction through the view [k:-k, k:-k] *)

Lemma inImage_cases k W H x y :
  0 <= k ->
  interior k W H x y \/ nearEdge k W H x y \/ ~ inImage W H x y.
Proof. unfold interior, nearEdge, inImage. lia. Qed.

Lemma nearEdge_not_interior k W H x y : nearEdge k W H x y -> ~ interior k W H x y.
Proof. unfold interior, nearEdge, inImage. lia. Qed.

Lemma hasBit_lor_EDGE m plane :
  hasBit (N.lor m (getPlaneBitMask "EDGE")) plane <->
  hasBit m plane \/ plane = getMaskPlane "EDGE".
Proof.
  unfold hasBit, getPlaneBitMask.
  rewrite N.lor_spec, N.shiftl_1_l, N.pow2_bits_eqb, orb_true_iff, N.eqb_eq.
  intuition congruence.
Qed.

Section CorrectInteriorMore.

Variable routine : MaskedImage -> MaskedImage -> outcome unit * (MaskedImage * MaskedImage).
Variables (k W H : Z) (w : World).

Let raw := getMaskedImage (exposure w).
Let calib := getMaskedImage (calibExposure w).
Let region := readView raw (marginView k W H).
Let r := routine region calib.
Let after := getMaskedImage (exposure (snd (correctInterior routine k W H w))).

(** When the routine raised, no pixel outside the view was touched. *)
Lemma correctInterior_raised_outside e x y :
  fst r = Raises e -> ~ interior k W H x y ->
  mi_image after x y = mi_image raw x y /\ mi_mask after x y = mi_mask raw x y.
Proof.
  intros He Hi. unfold after, correctInterior. cbv zeta. fold raw calib region r.
  rewrite He.
  pose proof (proj2 (contains_marginView_false k W H x y) Hi) as Hc.
  cbn [snd exposure getMaskedImage writeView mi_image mi_mask].
  rewrite Hc. split; reflexivity.
Qed.

(** The mask of the region at a pixel is the mask of the raw exposure at
    the pixel [k] further right and down. *)
Lemma region_mask x y :
  mi_mask region (x - k) (y - k) = mi_mask raw x y.
Proof.
  unfold region, readView, marginView. cbn.
  replace (k + (x - k)) with x by lia. replace (k + (y - k)) with y by lia.
  reflexivity.
Qed.

(** When the routine returned without clearing a mask bit of the region,
    the call cleared no mask bit of the raw exposure. *)
Lemma correctInterior_keeps_bits x y plane :
  0 <= k ->
  getDimensions (mi_bbox raw) = mkExtent W H ->
  (exists u, fst r = Returns u) ->
  (forall x y plane, inImage (W - 2 * k) (H - 2 * k) x y ->
     hasBit (mi_mask region x y) plane -> hasBit (mi_mask (fst (snd r)) x y) plane) ->
  hasBit (mi_mask raw x y) plane -> hasBit (mi_mask after x y) plane.
Proof.
  intros Hk Hd Hret Hkeep Hb.
  assert (Hcases : interior k W H x y \/ nearEdge k W H x y \/
                   (~ nearEdge k W H x y /\ ~ interior k W H x y)).
  { unfold interior, nearEdge, inImage. lia. }
  destruct Hcases as [Hi | [Hn | [Hn Hi]]].
  - unfold after. rewrite (proj2 (correctInterior_interior routine k W H w x y Hi)).
    apply Hkeep.
    + unfold interior, inImage in *. lia.
    + fold raw region. rewrite region_mask. exact Hb.
  - unfold after.
    rewrite (correctInterior_mask_nearEdge routine k W H w x y Hd Hret Hn).
    apply hasBit_lor_l, Hb.
  - unfold after.
    rewrite (correctInterior_mask_not_nearEdge routine k W H w x y Hd Hn Hi).
    exact Hb.
Qed.

(** When the routine returned, the pixels within [k] of an edge have the
    EDGE bit. *)
Lemma correctInterior_flags x y :
  getDimensions (mi_bbox raw) = mkExtent W H ->
  (exists u, fst r = Returns u) ->
  nearEdge k W H x y ->
  hasBit (mi_mask after x y) (getMaskPlane "EDGE").
Proof.
  intros Hd Hret Hn. unfold after.
  rewrite (correctInterior_mask_nearEdge routine k W H w x y Hd Hret Hn).
  apply hasBit_lor_r, testbit_getPlaneBitMask.
Qed.

End CorrectInteriorMore.

Lemma computeEdgeSize_returned (raw calib : Exposure) (n : Z) :
  _computeEdgeSize raw calib = Returns n ->
  0 <= n /\
  getWidth (getBBox calib) = getWidth (getBBox raw) - 2 * n /\
  getHeight (getBBox calib) = getHeight (getBBox raw) - 2 * n.
Proof.
  rewrite computeEdgeSize_cases. cbv zeta. unfold trimX, trimY.
  set (nx := _ - _). set (ny := _ - _).
  destruct (nx =? ny) eqn:E1; cbn [negb]; [|discriminate].
  destruct (nx mod 2 =? 0) eqn:E2; cbn [negb]; [|discriminate].
  destruct (nx >=? 0) eqn:E3; cbn [negb]; [|discriminate].
  intros Hn. injection Hn as <-.
  apply Z.eqb_eq in E1, E2.
  pose proof (Z.div_mod nx 2 ltac:(lia)) as Hdm.
  subst nx ny. lia.
Qed.

Lemma computeEdgeSize_of_dims (raw calib : Exposure) (n : Z) :
  0 <= n ->
  getWidth (getBBox calib) = getWidth (getBBox raw) - 2 * n ->
  getHeight (getBBox calib) = getHeight (getBBox raw) - 2 * n ->
  _computeEdgeSize raw calib = Returns n.
Proof.
  intros Hn Hw Hh.
  apply (computeEdgeSize_trimmed n (getWidth (getBBox raw))
           (getHeight (getBBox raw)) (mkWorld raw calib) Hn).
  unfold trimmedBy, getWidth, getHeight in *. cbn [exposure calibExposure].
  destruct (getDimensions (getBBox raw)) as [W H].
  destruct (getDimensions (getBBox calib)) as [W' H'].
  cbn [ex ey] in *. split; [reflexivity|]. f_equal; assumption.
Qed.

(** X1: [_computeEdgeSize] returns [n] exactly when [n] is non-negative
    and the calibration exposure is narrower and lower than the raw
    exposure by [2 * n]. *)
Theorem computeEdgeSize_returns_iff (raw calib : Exposure) (n : Z) :
  _computeEdgeSize raw calib = Returns n <->
  0 <= n /\
  getWidth (getBBox calib) = getWidth (getBBox raw) - 2 * n /\
  getHeight (getBBox calib) = getHeight (getBBox raw) - 2 * n.
Proof.
  split.
  - apply computeEdgeSize_returned.
  - intros (Hn & Hw & Hh). apply computeEdgeSize_of_dims; assumption.
Qed.

(** X2: which assertion fails.  An asymmetric trim is reported first,
    whatever its parity and sign; a symmetric odd trim is reported as
    uneven also when it is negative; only a symmetric, even, negative trim
    is reported as a calibration image larger than the raw data. *)
Theorem computeEdgeSize_assertion_order (rawExposure calibExposure : Exposure) :
  let nx := trimX rawExposure calibExposure in
  let ny := trimY rawExposure calibExposure in
  (nx <> ny ->
   _computeEdgeSize rawExposure calibExposure =
   Raises (AssertionError "Exposure is trimmed differently in X and Y")) /\
  (nx = ny -> Z.odd nx = true ->
   _computeEdgeSize rawExposure calibExposure =
   Raises (AssertionError "Exposure is trimmed unevenly in X")) /\
  (nx = ny -> Z.even nx = true -> nx < 0 ->
   _computeEdgeSize rawExposure calibExposure =
   Raises (AssertionError "Calibration image is larger than raw data")).
Proof.
  cbv zeta. rewrite computeEdgeSize_cases. cbv zeta.
  set (nx := trimX _ _). set (ny := trimY _ _).
  split; [|split].
  - intros Hne. apply Z.eqb_neq in Hne. rewrite Hne. reflexivity.
  - intros -> Hodd. rewrite Z.eqb_refl. cbn [negb].
    apply odd_mod2, Z.eqb_neq in Hodd. rewrite Hodd. reflexivity.
  - intros -> Hev Hneg. rewrite Z.eqb_refl. cbn [negb].
    rewrite Zmod_even, Hev. cbn [Z.eqb negb].
    destruct (ny >=? 0) eqn:E; [lia|reflexivity].
Qed.

(** X3: the order of the two exposures matters.  When the edge size of a
    raw exposure against a calibration exposure is positive, the edge size
    of the calibration exposure against the raw one is an assertion error:
    the calibration image is larger than the raw data. *)
Theorem computeEdgeSize_swapped (rawExposure calibExposure : Exposure) (n : Z) :
  _computeEdgeSize rawExposure calibExposure = Returns n ->
  (0 < n ->
   _computeEdgeSize calibExposure rawExposure =
   Raises (AssertionError "Calibration image is larger than raw data")) /\
  (n = 0 -> _computeEdgeSize calibExposure rawExposure = Returns 0).
Proof.
  intros Hn. apply computeEdgeSize_returned in Hn. destruct Hn as (Hn & Hw & Hh).
  split.
  - intros Hpos. rewrite computeEdgeSize_cases. cbv zeta. unfold trimX, trimY.
    rewrite Hw, Hh.
    replace (getWidth (getBBox rawExposure) - 2 * n - getWidth (getBBox rawExposure))
      with (- n * 2) by lia.
    replace (getHeight (getBBox rawExposure) - 2 * n - getHeight (getBBox rawExposure))
      with (- n * 2) by lia.
    rewrite Z.eqb_refl, Z_mod_mult. cbn [negb Z.eqb].
    destruct (- n * 2 >=? 0) eqn:E; [lia|reflexivity].
  - intros ->. apply computeEdgeSize_of_dims; lia.
Qed.

(** X4: after a flat correction with trim [k > 0] that the routine of the
    framework completed, every pixel within [k] of an edge has its former
    mask with the EDGE bit added and its former image value, interior
    pixels have the image value and the mask the routine produced, and,
    the routine clearing no mask bit of the region, no mask bit of any
    pixel is cleared. *)
Theorem flatCorrection_flags_border
  (self : DecamCpIsrTask) (w : World) (W H k : Z) (flatScalingType flatUserScale : value) :
  0 < k ->
  trimmedBy k W H w ->
  config self !! "flatScalingType" = Some flatScalingType ->
  config self !! "flatUserScale" = Some flatUserScale ->
  let raw := getMaskedImage (exposure w) in
  let region := readView raw (marginView k W H) in
  let r := ip_isr_flatCorrection region (getMaskedImage (calibExposure w))
                                 flatScalingType flatUserScale in
  fst r = Returns tt ->
  (forall x y plane, inImage (W - 2 * k) (H - 2 * k) x y ->
     hasBit (mi_mask region x y) plane -> hasBit (mi_mask (fst (snd r)) x y) plane) ->
  let after := getMaskedImage (exposure (snd (flatCorrection self w))) in
  fst (flatCorrection self w) = Returns tt /\
  (forall x y, nearEdge k W H x y ->
     hasBit (mi_mask after x y) (getMaskPlane "EDGE") /\
     mi_mask after x y = N.lor (mi_mask raw x y) (getPlaneBitMask "EDGE") /\
     mi_image after x y = mi_image raw x y) /\
  (forall x y plane, hasBit (mi_mask raw x y) plane -> hasBit (mi_mask after x y) plane) /\
  (forall x y, interior k W H x y ->
     mi_image after x y = mi_image (fst (snd r)) (x - k) (y - k) /\
     mi_mask after x y = mi_mask (fst (snd r)) (x - k) (y - k)).
Proof.
  intros Hk Ht Hs Hu. cbv zeta. intros Hret Hkeep.
  assert (Hk0 : 0 <= k) by lia.
  rewrite (flatCorrection_run self k W H w _ _ Hk0 Ht Hs Hu).
  pose proof (proj1 Ht) as Hd. unfold getBBox in Hd.
  set (routine := fun raw flat => ip_isr_flatCorrection raw flat flatScalingType flatUserScale).
  assert (Hret' : exists u, fst (routine (readView (getMaskedImage (exposure w))
                                                   (marginView k W H))
                                         (getMaskedImage (calibExposure w))) = Returns u)
    by (exists tt; exact Hret).
  split; [|split; [|split]].
  - rewrite (correctInterior_outcome routine). exact Hret.
  - intros x y Hn. split; [|split].
    + apply (correctInterior_flags routine k W H w x y Hd Hret' Hn).
    + apply (correctInterior_mask_nearEdge routine k W H w x y Hd Hret' Hn).
    + apply (correctInterior_image_outside routine), nearEdge_not_interior, Hn.
  - intros x y plane.
    apply (correctInterior_keeps_bits routine k W H w x y plane Hk0 Hd Hret' Hkeep).
  - intros x y Hi. apply (correctInterior_interior routine), Hi.
Qed.

(** X5: what a completed correction does to the mask of a pixel within
    [k] of an edge, plane by plane: the EDGE plane is set, every other
    plane is as it was.  No other bit is set and none is cleared. *)
Theorem border_pixels_gain_only_EDGE
  (self : DecamCpIsrTask) (w : World) (W H k : Z) (flatScalingType flatUserScale : value) :
  0 <= k ->
  trimmedBy k W H w ->
  config self !! "flatScalingType" = Some flatScalingType ->
  config self !! "flatUserScale" = Some flatUserScale ->
  let raw := getMaskedImage (exposure w) in
  (fst (biasCorrection self w) = Returns tt ->
   forall x y plane, nearEdge k W H x y ->
     (hasBit (mi_mask (getMaskedImage (exposure (snd (biasCorrection self w)))) x y) plane
      <-> hasBit (mi_mask raw x y) plane \/ plane = getMaskPlane "EDGE")) /\
  (fst (flatCorrection self w) = Returns tt ->
   forall x y plane, nearEdge k W H x y ->
     (hasBit (mi_mask (getMaskedImage (exposure (snd (flatCorrection self w)))) x y) plane
      <-> hasBit (mi_mask raw x y) plane \/ plane = getMaskPlane "EDGE")).
Proof.
  intros Hk Ht Hs Hu. cbv zeta.
  pose proof (proj1 Ht) as Hd. unfold getBBox in Hd.
  rewrite (biasCorrection_run self k W H w Hk Ht).
  rewrite (flatCorrection_run self k W H w _ _ Hk Ht Hs Hu).
  split.
  - rewrite correctInterior_outcome. intros Hret x y plane Hn.
    rewrite (correctInterior_mask_nearEdge ip_isr_biasCorrection k W H w x y Hd);
      [apply hasBit_lor_EDGE | eauto | exact Hn].
  - set (routine := fun raw flat =>
                      ip_isr_flatCorrection raw flat flatScalingType flatUserScale).
    rewrite (correctInterior_outcome routine). intros Hret x y plane Hn.
    rewrite (correctInterior_mask_nearEdge routine k W H w x y Hd);
      [apply hasBit_lor_EDGE | eauto | exact Hn].
Qed.

(** X6: when the routine of the framework raises, the method raises the
    same exception and [setEdgeBits] is not reached: every pixel outside
    the view has its former image value and its former mask, without the
    EDGE bit added, while the pixels of the view are as the routine left
    them. *)
Theorem routine_failure_leaves_border_unflagged
  (self : DecamCpIsrTask) (w : World) (W H k : Z) (flatScalingType flatUserScale : value)
  (e : exn) :
  0 <= k ->
  trimmedBy k W H w ->
  config self !! "flatScalingType" = Some flatScalingType ->
  config self !! "flatUserScale" = Some flatUserScale ->
  let raw := getMaskedImage (exposure w) in
  let calib := getMaskedImage (calibExposure w) in
  let region := readView raw (marginView k W H) in
  (let r := ip_isr_biasCorrection region calib in
   let after := getMaskedImage (exposure (snd (biasCorrection self w))) in
   fst r = Raises e ->
   fst (biasCorrection self w) = Raises e /\
   (forall x y, ~ interior k W H x y ->
      mi_image after x y = mi_image raw x y /\ mi_mask after x y = mi_mask raw x y) /\
   (forall x y, interior k W H x y ->
      mi_image after x y = mi_image (fst (snd r)) (x - k) (y - k) /\
      mi_mask after x y = mi_mask (fst (snd r)) (x - k) (y - k))) /\
  (let r := ip_isr_flatCorrection region calib flatScalingType flatUserScale in
   let after := getMaskedImage (exposure (snd (flatCorrection self w))) in
   fst r = Raises e ->
   fst (flatCorrection self w) = Raises e /\
   (forall x y, ~ interior k W H x y ->
      mi_image after x y = mi_image raw x y /\ mi_mask after x y = mi_mask raw x y) /\
   (forall x y, interior k W H x y ->
      mi_image after x y = mi_image (fst (snd r)) (x - k) (y - k) /\
      mi_mask after x y = mi_mask (fst (snd r)) (x - k) (y - k))).
Proof.
  intros Hk Ht Hs Hu. cbv zeta.
  rewrite (biasCorrection_run self k W H w Hk Ht).
  rewrite (flatCorrection_run self k W H w _ _ Hk Ht Hs Hu).
  split.
  - intros He. split; [|split].
    + rewrite correctInterior_outcome. exact He.
    + intros x y Hi.
      apply (correctInterior_raised_outside ip_isr_biasCorrection k W H w e x y He Hi).
    + intros x y Hi. apply correctInterior_interior, Hi.
  - set (routine := fun raw flat =>
                      ip_isr_flatCorrection raw flat flatScalingType flatUserScale).
    intros He. split; [|split].
    + rewrite (correctInterior_outcome routine). exact He.
    + intros x y Hi.
      apply (correctInterior_raised_outside routine k W H w e x y He Hi).
    + intros x y Hi. apply (correctInterior_interior routine), Hi.
Qed.

(** X7: with a bias of the dimensions of the raw exposure the routine of
    the framework receives the whole masked image of the raw exposure, and
    every pixel of the image ends with the value and the mask the routine
    left: the edge marking adds no bit. *)
Theorem biasCorrection_same_size_corrects_whole_image
  (self : DecamCpIsrTask) (w : World) :
  getDimensions (getBBox (calibExposure w)) = getDimensions (getBBox (exposure w)) ->
  let raw := getMaskedImage (exposure w) in
  let r := ip_isr_biasCorrection raw (getMaskedImage (calibExposure w)) in
  let after := getMaskedImage (exposure (snd (biasCorrection self w))) in
  fst (biasCorrection self w) = fst r /\
  (forall x y, inImage (getWidth (mi_bbox raw)) (getHeight (mi_bbox raw)) x y ->
     mi_image after x y = mi_image (fst (snd r)) x y /\
     mi_mask after x y = mi_mask (fst (snd r)) x y) /\
  (forall x y, ~ inImage (getWidth (mi_bbox raw)) (getHeight (mi_bbox raw)) x y ->
     mi_image after x y = mi_image raw x y /\
     mi_mask after x y = mi_mask raw x y).
Proof.
  intros Hsame. cbv zeta.
  set (W := getWidth (mi_bbox (getMaskedImage (exposure w)))).
  set (H := getHeight (mi_bbox (getMaskedImage (exposure w)))).
  assert (Hd : getDimensions (mi_bbox (getMaskedImage (exposure w))) = mkExtent W H).
  { subst W H. unfold getWidth, getHeight.
    destruct (getDimensions (mi_bbox (getMaskedImage (exposure w)))). reflexivity. }
  assert (Ht : trimmedBy 0 W H w).
  { split; [exact Hd|]. rewrite Hsame. unfold getBBox. rewrite Hd. f_equal; lia. }
  rewrite (biasCorrection_run self 0 W H w (Z.le_refl 0) Ht).
  pose proof (correctInterior_outcome ip_isr_biasCorrection 0 W H w) as Ho.
  pose proof (correctInterior_interior ip_isr_biasCorrection 0 W H w) as Hin.
  rewrite <- (wholeImage_margin _ W H Hd), readView_wholeImage in Ho, Hin.
  split; [exact Ho|split].
  - intros x y Hxy. specialize (Hin x y). rewrite !Z.sub_0_r in Hin.
    apply Hin. unfold interior, inImage in *. lia.
  - intros x y Hxy. split.
    + apply correctInterior_image_outside. unfold interior, inImage in *. lia.
    + apply (correctInterior_mask_not_nearEdge ip_isr_biasCorrection 0 W H w x y Hd);
        unfold nearEdge, interior, inImage in *; lia.
Qed.

(** X8: bias correction followed by flat correction of the same raw
    exposure, with trims [kb] and [kf].  When both complete and the flat
    routine of the framework clears no mask bit of its region, the pixels
    within [kb] of an edge and those within [kf] of an edge all carry the
    EDGE bit: the flags of the bias correction survive the flat
    correction. *)
Theorem edge_flags_survive_flatCorrection
  (self : DecamCpIsrTask) (rawE biasE flatE : Exposure) (W H kb kf : Z)
  (flatScalingType flatUserScale : value) :
  0 <= kb -> 0 <= kf ->
  getDimensions (getBBox rawE) = mkExtent W H ->
  getDimensions (getBBox biasE) = mkExtent (W - 2 * kb) (H - 2 * kb) ->
  getDimensions (getBBox flatE) = mkExtent (W - 2 * kf) (H - 2 * kf) ->
  config self !! "flatScalingType" = Some flatScalingType ->
  config self !! "flatUserScale" = Some flatUserScale ->
  let afterBias := biasCorrection self (mkWorld rawE biasE) in
  let debiased := exposure (snd afterBias) in
  let afterFlat := flatCorrection self (mkWorld debiased flatE) in
  let region := readView (getMaskedImage debiased) (marginView kf W H) in
  let r := ip_isr_flatCorrection region (getMaskedImage flatE)
                                 flatScalingType flatUserScale in
  fst afterBias = Returns tt ->
  fst r = Returns tt ->
  (forall x y plane, inImage (W - 2 * kf) (H - 2 * kf) x y ->
     hasBit (mi_mask region x y) plane -> hasBit (mi_mask (fst (snd r)) x y) plane) ->
  fst afterFlat = Returns tt /\
  forall x y, nearEdge kb W H x y \/ nearEdge kf W H x y ->
    hasBit (mi_mask (getMaskedImage (exposure (snd afterFlat))) x y)
           (getMaskPlane "EDGE").
Proof.
  intros Hkb Hkf Hr Hb Hf Hs Hu. cbv zeta.
  assert (Htb : trimmedBy kb W H (mkWorld rawE biasE)) by (split; assumption).
  rewrite (biasCorrection_run self kb W H _ Hkb Htb).
  set (w1 := correctInterior ip_isr_biasCorrection kb W H (mkWorld rawE biasE)).
  pose proof (correctInterior_frame ip_isr_biasCorrection kb W H (mkWorld rawE biasE))
    as [_ Hbox].
  fold w1 in Hbox. cbn [exposure] in Hbox.
  assert (Hd1 : getDimensions (mi_bbox (getMaskedImage (exposure (snd w1)))) = mkExtent W H).
  { rewrite Hbox. exact Hr. }
  assert (Htf : trimmedBy kf W H (mkWorld (exposure (snd w1)) flatE))
    by (split; assumption).
  rewrite (flatCorrection_run self kf W H _ _ _ Hkf Htf Hs Hu).
  set (routine := fun raw flat => ip_isr_flatCorrection raw flat flatScalingType flatUserScale).
  intros Hret1 Hret2 Hkeep.
  assert (Hret1' : exists u, fst (ip_isr_biasCorrection
                                    (readView (getMaskedImage rawE) (marginView kb W H))
                                    (getMaskedImage biasE)) = Returns u).
  { exists tt. subst w1.
    rewrite (correctInterior_outcome ip_isr_biasCorrection kb W H (mkWorld rawE biasE))
      in Hret1. exact Hret1. }
  assert (Hret2' : exists u, fst (routine (readView (getMaskedImage (exposure (snd w1)))
                                                    (marginView kf W H))
                                          (getMaskedImage flatE)) = Returns u)
    by (exists tt; exact Hret2).
  split.
  - rewrite (correctInterior_outcome routine). exact Hret2.
  - intros x y Hn.
    assert (Hdec : nearEdge kf W H x y \/ ~ nearEdge kf W H x y)
      by (unfold nearEdge, inImage; lia).
    destruct Hdec as [Hnf | Hnf].
    + apply (correctInterior_flags routine kf W H
               (mkWorld (exposure (snd w1)) flatE) x y Hd1 Hret2' Hnf).
    + destruct Hn as [Hnb | Hn]; [|contradiction].
      apply (correctInterior_keeps_bits routine kf W H
               (mkWorld (exposure (snd w1)) flatE) x y _ Hkf Hd1 Hret2' Hkeep).
      apply (correctInterior_flags ip_isr_biasCorrection kb W H
               (mkWorld rawE biasE) x y Hr Hret1' Hnb).
Qed.

(** X9: [flatCorrection] reads the scaling type and then the user scale
    from the configuration after the geometry check and before the routine
    of the framework is called.  For a pair that passes the check, a
    configuration without one of them makes the method raise the attribute
    error for the first one missing, with both exposures as they were. *)
Theorem flatCorrection_missing_attribute (self : DecamCpIsrTask) (w : World) :
  ~ malformed (exposure w) (calibExposure w) ->
  (config self !! "flatScalingType" = None ->
   flatCorrection self w = (Raises (AttributeError "flatScalingType"), w)) /\
  (is_Some (config self !! "flatScalingType") ->
   config self !! "flatUserScale" = None ->
   flatCorrection self w = (Raises (AttributeError "flatUserScale"), w)).
Proof.
  intros Hm. split.
  - intros Hs. unfold flatCorrection, mbind, M_bind, call_computeEdgeSize.
    rewrite (computeEdgeSize_wellformed _ _ Hm).
    destruct (_ >? 0); unfold gets, lift, getattr; rewrite Hs; reflexivity.
  - intros [st Hs] Hu. unfold flatCorrection, mbind, M_bind, call_computeEdgeSize.
    rewrite (computeEdgeSize_wellformed _ _ Hm).
    destruct (_ >? 0); unfold gets, lift, getattr; rewrite Hs, Hu; reflexivity.
Qed.

(** X10: [setDefaults] is idempotent, and what it gives does not depend on
    the data product names the configuration held before. *)
Theorem setDefaults_idempotent (self : gmap string value) (v : value) :
  setDefaults (setDefaults self) = setDefaults self /\
  setDefaults (<["biasDataProductName" := v]> self) = setDefaults self /\
  setDefaults (<["flatDataProductName" := v]> self) = setDefaults self.
Proof.
  unfold setDefaults. split; [|split]; apply map_eq; intros name.
  - destruct (decide (name = "flatDataProductName")) as [->|Hf];
      [rewrite !lookup_insert_eq; reflexivity|].
    destruct (decide (name = "biasDataProductName")) as [->|Hb].
    + rewrite !(lookup_insert_ne _ "flatDataProductName") by discriminate.
      rewrite !lookup_insert_eq. reflexivity.
    + rewrite !lookup_insert_ne by congruence. reflexivity.
  - destruct (decide (name = "flatDataProductName")) as [->|Hf];
      [rewrite !lookup_insert_eq; reflexivity|].
    destruct (decide (name = "biasDataProductName")) as [->|Hb].
    + rewrite !(lookup_insert_ne _ "flatDataProductName") by discriminate.
      rewrite !lookup_insert_eq. reflexivity.
    + rewrite !lookup_insert_ne by congruence. reflexivity.
  - destruct (decide (name = "flatDataProductName")) as [->|Hf];
      [rewrite !lookup_insert_eq; reflexivity|].
    destruct (decide (name = "biasDataProductName")) as [->|Hb].
    + rewrite !(lookup_insert_ne _ "flatDataProductName") by discriminate.
      rewrite !lookup_insert_eq. reflexivity.
    + rewrite !lookup_insert_ne by congruence. reflexivity.
Qed.

(** X11: the defaults of [DecamCpIsrConfig] do not reach the corrections:
    a task configured with [setDefaults cfg] corrects as a task configured
    with [cfg] does, since [flatCorrection] reads the scaling type and the
    user scale only, and [biasCorrection] reads nothing. *)
Theorem setDefaults_keeps_corrections (cfg : gmap string value) (w : World) :
  flatCorrection (mkTask (setDefaults cfg)) w = flatCorrection (mkTask cfg) w /\
  biasCorrection (mkTask (setDefaults cfg)) w = biasCorrection (mkTask cfg) w.
Proof.
  split; [|reflexivity].
  unfold flatCorrection, mbind, M_bind, call_computeEdgeSize.
  destruct (_computeEdgeSize _ _) as [nEdge|e]; [|reflexivity].
  assert (Hs : setDefaults cfg !! "flatScalingType" = cfg !! "flatScalingType").
  { unfold setDefaults. rewrite !lookup_insert_ne by discriminate. reflexivity. }
  assert (Hu : setDefaults cfg !! "flatUserScale" = cfg !! "flatUserScale").
  { unfold setDefaults. rewrite !lookup_insert_ne by discriminate. reflexivity. }
  destruct (nEdge >? 0); unfold gets, lift, getattr; cbn [config];
    rewrite Hs, Hu; reflexivity.
Qed.

End Isr.


(** ** A concrete instance

    Integer pixels, a pixel-wise bias subtraction and a flat division with
    a user scale, both of which join the masks of their two arguments, and
    the EDGE plane at bit 4. *)

Module Sample.

Definition maskPlanes (name : string) : N :=
  if String.eqb name "EDGE" then 4%N else 0%N.

Definition subtractBias (raw bias : @MaskedImage Z)
  : outcome unit * (@MaskedImage Z * @MaskedImage Z) :=
  (Returns tt,
   (mkMaskedImage (mi_bbox raw)
      (fun x y => mi_image raw x y - mi_image bias x y)
      (fun x y => N.lor (mi_mask raw x y) (mi_mask bias x y)),
    bias)).

Definition divideFlat (raw flat : @MaskedImage Z) (scalingType userScale : @value Z)
  : outcome unit * (@MaskedImage Z * @MaskedImage Z) :=
  match scalingType, userScale with
  | VStr mode, VScalar scale =>
      if String.eqb mode "USER"
      then (Returns tt,
            (mkMaskedImage (mi_bbox raw)
               (fun x y => mi_image raw x y * scale / mi_image flat x y)
               (fun x y => N.lor (mi_mask raw x y) (mi_mask flat x y)),
             flat))
      else (Raises (RuntimeError "scaling type not implemented"), (raw, flat))
  | _, _ => (Raises (RuntimeError "scaling type not implemented"), (raw, flat))
  end.

(** A raw exposure of the given size whose box starts at (10, 20); the
    pixel (2, 2) carries mask bit 0. *)
Definition rawOfSize (W H : Z) : @Exposure Z string :=
  mkExposure "raw"
    (mkMaskedImage (mkBox (mkPoint 10 20) (mkExtent W H))
       (fun x y => 100 + x + 10 * y)
       (fun x y => if (x =? 2) && (y =? 2) then 1%N else 0%N)).

(** A calibration exposure of the given size, every pixel 2, mask bit 1 on
    its pixel (0, 0). *)
Definition calibOfSize (name : string) (W H : Z) : @Exposure Z string :=
  mkExposure name
    (mkMaskedImage (mkBox (mkPoint 0 0) (mkExtent W H))
       (fun _ _ => 2)
       (fun x y => if (x =? 0) && (y =? 0) then 2%N else 0%N)).

Definition task : @DecamCpIsrTask Z :=
  mkTask (<["flatUserScale" := VScalar 3]> (<["flatScalingType" := VStr "USER"]> ∅)).

(** A 6 x 8 raw exposure with a 4 x 6 calibration exposure (trim 1), with
    one of its own size (trim 0), with a 5 x 7 one (odd trim), and the two
    DECam scenarios. *)
Definition trimmed1 : @World Z string := mkWorld (rawOfSize 6 8) (calibOfSize "cpBias" 4 6).
Definition sameSize : @World Z string := mkWorld (rawOfSize 6 8) (calibOfSize "cpFlat" 6 8).
Definition oddTrim : @World Z string := mkWorld (rawOfSize 6 8) (calibOfSize "cpBias" 5 7).
Definition decamBias : @World Z string := mkWorld (rawOfSize 2048 4096) (calibOfSize "cpBias" 2046 4094).
Definition decamFlat : @World Z string := mkWorld (rawOfSize 2048 4096) (calibOfSize "cpFlat" 2040 4088).

Definition runBias (w : @World Z string) : outcome unit * @World Z string :=
  biasCorrection maskPlanes subtractBias task w.

Definition runFlat (w : @World Z string) : outcome unit * @World Z string :=
  flatCorrection maskPlanes divideFlat task w.

(** A pixel of the raw exposure after a run: image value and mask. *)
Definition pixelAfter (res : outcome unit * @World Z string) (x y : Z) : Z * N :=
  let m := getMaskedImage (exposure (snd res)) in (mi_image m x y, mi_mask m x y).

Example runBias_trimmed1_returns : fst (runBias trimmed1) = Returns tt.
Proof. reflexivity. Qed.

(** Corner, border, first interior pixel, the flagged pixel (2, 2), and a
    pixel of the far border, before: 100, 105, 111, 122, 175. *)
Example runBias_trimmed1_pixels :
  map (fun p => pixelAfter (runBias trimmed1) (fst p) (snd p))
      [(0, 0); (5, 0); (1, 1); (2, 2); (5, 7)]
  = [(100, 16%N); (105, 16%N); (109, 2%N); (120, 1%N); (175, 16%N)].
Proof. reflexivity. Qed.

Example runFlat_sameSize_pixels :
  map (fun p => pixelAfter (runFlat sameSize) (fst p) (snd p))
      [(0, 0); (5, 0); (1, 1); (2, 2); (5, 7)]
  = [(150, 2%N); (157, 0%N); (166, 0%N); (183, 1%N); (262, 0%N)].
Proof. reflexivity. Qed.

Example runBias_oddTrim_raises :
  runBias oddTrim = (Raises (AssertionError "Exposure is trimmed unevenly in X"), oddTrim).
Proof. reflexivity. Qed.

(** A second raw exposure of the same size: other pixels, other masks,
    another origin, another name. *)
Definition otherRawOfSize (W H : Z) : @Exposure Z string :=
  mkExposure "another raw"
    (mkMaskedImage (mkBox (mkPoint 0 0) (mkExtent W H))
       (fun x y => x * y)
       (fun _ _ => 8%N)).

Lemma subtractBias_keeps_calib a b : snd (snd (subtractBias a b)) = b.
Proof. reflexivity. Qed.

Lemma divideFlat_keeps_calib a b s u : snd (snd (divideFlat a b s u)) = b.
Proof.
  unfold divideFlat. destruct s as [mode|?], u as [?|scale]; try reflexivity.
  destruct (String.eqb mode "USER"); reflexivity.
Qed.

Lemma subtractBias_keeps_mask a b x y plane :
  hasBit (mi_mask a x y) plane ->
  hasBit (mi_mask (fst (snd (subtractBias a b))) x y) plane.
Proof. intros Hb. cbn. apply hasBit_lor_l, Hb. Qed.

Lemma computeEdgeSize_returns_half_difference_witness :
  0 <= 1 /\
  _computeEdgeSize (rawOfSize 6 8) (calibOfSize "cpBias" 4 6) = Returns 1.
Proof.
  split; [lia|].
  apply (computeEdgeSize_returns_half_difference
           (rawOfSize 6 8) (calibOfSize "cpBias" 4 6) 6 8 1);
    [lia | reflexivity | reflexivity].
Defined.

Lemma computeEdgeSize_depends_on_dimensions_only_witness :
  _computeEdgeSize (rawOfSize 6 8) (calibOfSize "cpBias" 4 6) =
  _computeEdgeSize (otherRawOfSize 6 8) (calibOfSize "cpFlat" 4 6) /\
  ((exists e, _computeEdgeSize (rawOfSize 6 8) (calibOfSize "cpBias" 4 6) = Raises e) <->
   (exists e, _computeEdgeSize (otherRawOfSize 6 8) (calibOfSize "cpFlat" 4 6) = Raises e)).
Proof.
  apply (computeEdgeSize_depends_on_dimensions_only
           (rawOfSize 6 8) (calibOfSize "cpBias" 4 6)
           (otherRawOfSize 6 8) (calibOfSize "cpFlat" 4 6));
    reflexivity.
Defined.

Lemma corrections_apply_to_interior_witness :
  let raw := getMaskedImage (exposure trimmed1) in
  let calib := getMaskedImage (calibExposure trimmed1) in
  let region := readView raw (marginView 1 6 8) in
  (trimmedBy 1 6 8 trimmed1 /\
   getDimensions (mi_bbox region) = mkExtent 4 6 /\
   getMin (mi_bbox region) = mkPoint 11 21) /\
  (fst (runBias trimmed1) = Returns tt /\
   onlyInteriorCorrected maskPlanes 1 6 8 raw (fst (snd (subtractBias region calib)))
     (getMaskedImage (exposure (snd (runBias trimmed1))))) /\
  (fst (runFlat trimmed1) = Returns tt /\
   onlyInteriorCorrected maskPlanes 1 6 8 raw
     (fst (snd (divideFlat region calib (VStr "USER") (VScalar 3))))
     (getMaskedImage (exposure (snd (runFlat trimmed1))))).
Proof.
  assert (Ht : trimmedBy 1 6 8 trimmed1) by (split; reflexivity).
  pose proof (corrections_apply_to_interior maskPlanes subtractBias divideFlat
                task trimmed1 6 8 1 (VStr "USER") (VScalar 3)
                ltac:(lia) Ht eq_refl eq_refl) as Hthm.
  cbv zeta in Hthm. cbv zeta.
  destruct Hthm as ((Hd & Hm & _) & (Hbo & Hbi) & (Hfo & Hfi)).
  split; [|split].
  - split; [exact Ht|]. split; [exact Hd | exact Hm].
  - split; [exact Hbo | exact Hbi].
  - split; [exact Hfo | exact Hfi].
Defined.

Lemma biasCorrection_flags_border_witness :
  let after := getMaskedImage (exposure (snd (runBias trimmed1))) in
  (0 < 1 /\ trimmedBy 1 6 8 trimmed1) /\
  fst (runBias trimmed1) = Returns tt /\
  (forall x y, nearEdge 1 6 8 x y -> hasBit (mi_mask after x y) 4) /\
  (forall x y plane,
     hasBit (mi_mask (getMaskedImage (exposure trimmed1)) x y) plane ->
     hasBit (mi_mask after x y) plane).
Proof.
  assert (Ht : trimmedBy 1 6 8 trimmed1) by (split; reflexivity).
  pose proof (biasCorrection_flags_border maskPlanes subtractBias
                task trimmed1 6 8 1 ltac:(lia) Ht eq_refl
                (fun x y plane _ => subtractBias_keeps_mask _ _ x y plane)) as Hthm.
  cbv zeta in Hthm. cbv zeta.
  destruct Hthm as (Ho & Hedge & Hkeep & _).
  split; [split; [lia | exact Ht]|]. split; [exact Ho|]. split.
  - intros x y Hn. exact (proj1 (Hedge x y Hn)).
  - exact Hkeep.
Defined.

Lemma flatCorrection_same_size_corrects_whole_image_witness :
  let raw := getMaskedImage (exposure sameSize) in
  let r := divideFlat raw (getMaskedImage (calibExposure sameSize))
                      (VStr "USER") (VScalar 3) in
  let after := getMaskedImage (exposure (snd (runFlat sameSize))) in
  _computeEdgeSize (exposure sameSize) (calibExposure sameSize) = Returns 0 /\
  fst (runFlat sameSize) = Returns tt /\
  (forall x y, inImage 6 8 x y ->
     mi_image after x y = mi_image (fst (snd r)) x y /\
     mi_mask after x y = mi_mask (fst (snd r)) x y).
Proof.
  pose proof (flatCorrection_same_size_corrects_whole_image maskPlanes divideFlat
                task sameSize (VStr "USER") (VScalar 3)
                eq_refl eq_refl eq_refl) as Hthm.
  cbv zeta in Hthm. cbv zeta.
  destruct Hthm as (He & Ho & Hin & _).
  split; [exact He|]. split; [exact Ho | exact Hin].
Defined.

Lemma malformed_geometry_aborts_before_mutation_witness :
  malformed (exposure oddTrim) (calibExposure oddTrim) /\
  exists msg,
    runBias oddTrim = (Raises (AssertionError msg), oddTrim) /\
    runFlat oddTrim = (Raises (AssertionError msg), oddTrim).
Proof.
  assert (Hm : malformed (exposure oddTrim) (calibExposure oddTrim)).
  { right. left. split; reflexivity. }
  split; [exact Hm|].
  exact (malformed_geometry_aborts_before_mutation maskPlanes subtractBias divideFlat
           task oddTrim Hm).
Defined.

Lemma decam_trim_scenarios_witness :
  (_computeEdgeSize (exposure decamBias) (calibExposure decamBias) = Returns 1 /\
   getDimensions
     (mi_bbox (readView (getMaskedImage (exposure decamBias))
                        (sliceLOCAL (getMaskedImage (exposure decamBias))
                                    (1, - (1)) (1, - (1)))))
   = mkExtent 2046 4094 /\
   fst (runBias decamBias) = Returns tt /\
   forall x y, nearEdge 1 2048 4096 x y ->
     hasBit (mi_mask (getMaskedImage (exposure (snd (runBias decamBias)))) x y) 4) /\
  (_computeEdgeSize (exposure decamFlat) (calibExposure decamFlat) = Returns 4 /\
   getDimensions
     (mi_bbox (readView (getMaskedImage (exposure decamFlat))
                        (sliceLOCAL (getMaskedImage (exposure decamFlat))
                                    (4, - (4)) (4, - (4)))))
   = mkExtent 2040 4088 /\
   fst (runFlat decamFlat) = Returns tt /\
   forall x y, nearEdge 4 2048 4096 x y ->
     hasBit (mi_mask (getMaskedImage (exposure (snd (runFlat decamFlat)))) x y) 4).
Proof.
  pose proof (decam_trim_scenarios maskPlanes subtractBias divideFlat
                task decamBias (VStr "USER") (VScalar 3) eq_refl) as Hb.
  pose proof (decam_trim_scenarios maskPlanes subtractBias divideFlat
                task decamFlat (VStr "USER") (VScalar 3) eq_refl) as Hf.
  cbv zeta in Hb, Hf.
  destruct Hb as [Hb _]. destruct Hf as [_ Hf].
  specialize (Hb eq_refl). specialize (Hf eq_refl eq_refl eq_refl).
  destruct Hb as (Hb1 & _ & (Hbd & _) & Hb2 & _ & Hb3).
  destruct Hf as (Hf1 & _ & (Hfd & _) & Hf2 & _ & Hf3).
  split.
  - split; [exact Hb1|]. split; [exact Hbd|]. split; [exact Hb2 | exact (Hb3 eq_refl)].
  - split; [exact Hf1|]. split; [exact Hfd|]. split; [exact Hf2 | exact (Hf3 eq_refl)].
Defined.

(** The configuration as the inherited schema leaves it: the data product
    names of the framework, and the scaling of the flat. *)
Definition inheritedConfig : gmap string (@value Z) :=
  <["biasDataProductName" := VStr "bias"]>
    (<["flatDataProductName" := VStr "flat"]>
       (<["flatScalingType" := VStr "USER"]> (<["flatUserScale" := VScalar 1]> ∅))).

Lemma setDefaults_assigns_inherited_product_names_witness :
  setDefaults inheritedConfig !! "biasDataProductName" = Some (VStr "cpBias") /\
  setDefaults inheritedConfig !! "flatDataProductName" = Some (VStr "cpFlat") /\
  dom (setDefaults inheritedConfig) = dom inheritedConfig /\
  newAttributes inheritedConfig (setDefaults inheritedConfig) = ∅.
Proof.
  destruct (setDefaults_assigns_inherited_product_names inheritedConfig
              (ex_intro _ (VStr "bias") eq_refl) (ex_intro _ (VStr "flat") eq_refl))
    as (_ & _ & Hb & Hf & _ & Hd & Hn).
  split; [exact Hb|]. split; [exact Hf|]. split; [exact Hd | exact Hn].
Defined.

(** The class declares no field, not two; and on the inherited
    configuration [setDefaults] adds no attribute, not two. *)
Lemma setDefaults_defines_no_new_field :
  length (cls_fields DecamCpIsrConfig) <> 2%nat /\
  size (schema DecamCpIsrConfig (dom inheritedConfig) ∖ dom inheritedConfig) <> 2%nat /\
  size (newAttributes inheritedConfig (setDefaults inheritedConfig)) <> 2%nat.
Proof.
  split; [discriminate|]. split.
  - assert (E : schema DecamCpIsrConfig (dom inheritedConfig) ∖ dom inheritedConfig
                = (∅ : gset string)).
    { apply set_eq. intros name. unfold schema. cbn.
      rewrite elem_of_difference, elem_of_union, !elem_of_empty. tauto. }
    rewrite E, size_empty. discriminate.
  - assert (E : newAttributes inheritedConfig (setDefaults inheritedConfig) = ∅).
    { unfold newAttributes, setDefaults, inheritedConfig.
      apply set_eq. intros name.
      rewrite elem_of_difference, !dom_insert_L, !elem_of_union, !elem_of_singleton,
        elem_of_empty. tauto. }
    rewrite E, size_empty. discriminate.
Qed.

Lemma corrections_leave_calibration_unchanged_witness :
  framed trimmed1 (runBias trimmed1) /\ framed trimmed1 (runFlat trimmed1).
Proof.
  exact (corrections_leave_calibration_unchanged maskPlanes subtractBias divideFlat
           task trimmed1 subtractBias_keeps_calib divideFlat_keeps_calib).
Defined.

(** *** Further runs *)

(** A bias routine that refuses its arguments, and a task whose scaling
    type [divideFlat] does not implement. *)
Definition refuseBias (raw bias : @MaskedImage Z)
  : outcome unit * (@MaskedImage Z * @MaskedImage Z) :=
  (Raises (RuntimeError "maskedImage bbox != biasMaskedImage bbox"), (raw, bias)).

Definition taskMean : @DecamCpIsrTask Z :=
  mkTask (<["flatUserScale" := VScalar 3]> (<["flatScalingType" := VStr "MEAN"]> ∅)).

Definition taskNoScale : @DecamCpIsrTask Z :=
  mkTask (<["flatScalingType" := VStr "USER"]> ∅).

Lemma divideFlat_keeps_mask a b x y plane :
  hasBit (mi_mask a x y) plane ->
  hasBit (mi_mask (fst (snd (divideFlat a b (VStr "USER") (VScalar 3)))) x y) plane.
Proof. intros Hb. cbn. apply hasBit_lor_l, Hb. Qed.

Lemma computeEdgeSize_swapped_witness :
  _computeEdgeSize (rawOfSize 6 8) (calibOfSize "cpBias" 4 6) = Returns 1 /\
  _computeEdgeSize (calibOfSize "cpBias" 4 6) (rawOfSize 6 8) =
  Raises (AssertionError "Calibration image is larger than raw data").
Proof.
  split; [reflexivity|].
  apply (computeEdgeSize_swapped (rawOfSize 6 8) (calibOfSize "cpBias" 4 6) 1 eq_refl).
  lia.
Defined.

Lemma flatCorrection_flags_border_witness :
  let after := getMaskedImage (exposure (snd (runFlat trimmed1))) in
  (0 < 1 /\ trimmedBy 1 6 8 trimmed1) /\
  fst (runFlat trimmed1) = Returns tt /\
  (forall x y, nearEdge 1 6 8 x y -> hasBit (mi_mask after x y) 4) /\
  (forall x y plane,
     hasBit (mi_mask (getMaskedImage (exposure trimmed1)) x y) plane ->
     hasBit (mi_mask after x y) plane).
Proof.
  assert (Ht : trimmedBy 1 6 8 trimmed1) by (split; reflexivity).
  pose proof (flatCorrection_flags_border maskPlanes divideFlat
                task trimmed1 6 8 1 (VStr "USER") (VScalar 3)
                ltac:(lia) Ht eq_refl eq_refl eq_refl
                (fun x y plane _ => divideFlat_keeps_mask _ _ x y plane)) as Hthm.
  cbv zeta in Hthm. cbv zeta.
  destruct Hthm as (Ho & Hedge & Hkeep & _).
  split; [split; [lia | exact Ht]|]. split; [exact Ho|]. split.
  - intros x y Hn. exact (proj1 (Hedge x y Hn)).
  - exact Hkeep.
Defined.

Lemma border_pixels_gain_only_EDGE_witness :
  trimmedBy 1 6 8 trimmed1 /\
  (forall x y plane, nearEdge 1 6 8 x y ->
     (hasBit (mi_mask (getMaskedImage (exposure (snd (runBias trimmed1)))) x y) plane
      <-> hasBit (mi_mask (getMaskedImage (exposure trimmed1)) x y) plane \/ plane = 4%N)) /\
  (forall x y plane, nearEdge 1 6 8 x y ->
     (hasBit (mi_mask (getMaskedImage (exposure (snd (runFlat trimmed1)))) x y) plane
      <-> hasBit (mi_mask (getMaskedImage (exposure trimmed1)) x y) plane \/ plane = 4%N)).
Proof.
  assert (Ht : trimmedBy 1 6 8 trimmed1) by (split; reflexivity).
  pose proof (border_pixels_gain_only_EDGE maskPlanes subtractBias divideFlat
                task trimmed1 6 8 1 (VStr "USER") (VScalar 3)
                ltac:(lia) Ht eq_refl eq_refl) as Hthm.
  cbv zeta in Hthm. destruct Hthm as [Hb Hf].
  split; [exact Ht|]. split; [exact (Hb eq_refl) | exact (Hf eq_refl)].
Defined.

Lemma routine_failure_leaves_border_unflagged_witness :
  (fst (biasCorrection maskPlanes refuseBias task trimmed1) =
     Raises (RuntimeError "maskedImage bbox != biasMaskedImage bbox") /\
   forall x y, ~ interior 1 6 8 x y ->
     mi_mask (getMaskedImage
                (exposure (snd (biasCorrection maskPlanes refuseBias task trimmed1)))) x y
     = mi_mask (getMaskedImage (exposure trimmed1)) x y) /\
  (fst (flatCorrection maskPlanes divideFlat taskMean trimmed1) =
     Raises (RuntimeError "scaling type not implemented") /\
   forall x y, ~ interior 1 6 8 x y ->
     mi_mask (getMaskedImage
                (exposure (snd (flatCorrection maskPlanes divideFlat taskMean trimmed1)))) x y
     = mi_mask (getMaskedImage (exposure trimmed1)) x y).
Proof.
  assert (Ht : trimmedBy 1 6 8 trimmed1) by (split; reflexivity).
  pose proof (routine_failure_leaves_border_unflagged maskPlanes refuseBias divideFlat
                task trimmed1 6 8 1 (VStr "USER") (VScalar 3)
                (RuntimeError "maskedImage bbox != biasMaskedImage bbox")
                ltac:(lia) Ht eq_refl eq_refl) as Hb.
  pose proof (routine_failure_leaves_border_unflagged maskPlanes refuseBias divideFlat
                taskMean trimmed1 6 8 1 (VStr "MEAN") (VScalar 3)
                (RuntimeError "scaling type not implemented")
                ltac:(lia) Ht eq_refl eq_refl) as Hf.
  cbv zeta in Hb, Hf. destruct Hb as [Hb _]. destruct Hf as [_ Hf].
  destruct (Hb eq_refl) as (Hb1 & Hb2 & _). destruct (Hf eq_refl) as (Hf1 & Hf2 & _).
  split; (split; [assumption|]).
  - intros x y Hi. exact (proj2 (Hb2 x y Hi)).
  - intros x y Hi. exact (proj2 (Hf2 x y Hi)).
Defined.

Lemma biasCorrection_same_size_corrects_whole_image_witness :
  let raw := getMaskedImage (exposure sameSize) in
  let r := subtractBias raw (getMaskedImage (calibExposure sameSize)) in
  let after := getMaskedImage (exposure (snd (runBias sameSize))) in
  fst (runBias sameSize) = Returns tt /\
  (forall x y, inImage 6 8 x y ->
     mi_image after x y = mi_image (fst (snd r)) x y /\
     mi_mask after x y = mi_mask (fst (snd r)) x y).
Proof.
  pose proof (biasCorrection_same_size_corrects_whole_image maskPlanes subtractBias
                task sameSize eq_refl) as Hthm.
  cbv zeta in Hthm. cbv zeta.
  destruct Hthm as (Ho & Hin & _).
  split; [exact Ho | exact Hin].
Defined.

(** Bias correction with trim 2, then flat correction with trim 1, of a
    12 x 10 raw exposure. *)
Lemma edge_flags_survive_flatCorrection_witness :
  let afterBias := runBias (mkWorld (rawOfSize 12 10) (calibOfSize "cpBias" 8 6)) in
  let afterFlat := runFlat (mkWorld (exposure (snd afterBias)) (calibOfSize "cpFlat" 10 8)) in
  fst afterFlat = Returns tt /\
  forall x y, nearEdge 2 12 10 x y \/ nearEdge 1 12 10 x y ->
    hasBit (mi_mask (getMaskedImage (exposure (snd afterFlat))) x y) 4.
Proof.
  exact (edge_flags_survive_flatCorrection maskPlanes subtractBias divideFlat task
           (rawOfSize 12 10) (calibOfSize "cpBias" 8 6) (calibOfSize "cpFlat" 10 8)
           12 10 2 1 (VStr "USER") (VScalar 3)
           ltac:(lia) ltac:(lia) eq_refl eq_refl eq_refl eq_refl eq_refl
           eq_refl eq_refl
           (fun x y plane _ => divideFlat_keeps_mask _ _ x y plane)).
Defined.

Lemma flatCorrection_missing_attribute_witness :
  flatCorrection maskPlanes divideFlat (mkTask ∅) trimmed1 =
    (Raises (AttributeError "flatScalingType"), trimmed1) /\
  flatCorrection maskPlanes divideFlat taskNoScale trimmed1 =
    (Raises (AttributeError "flatUserScale"), trimmed1).
Proof.
  assert (Hm : ~ malformed (exposure trimmed1) (calibExposure trimmed1)).
  { unfold malformed, trimX, trimY, getWidth, getHeight. cbn.
    intros [H | [[_ H] | H]]; [lia | discriminate | lia]. }
  split.
  - exact (proj1 (flatCorrection_missing_attribute maskPlanes divideFlat
                    (mkTask ∅) trimmed1 Hm) eq_refl).
  - exact (proj2 (flatCorrection_missing_attribute maskPlanes divideFlat
                    taskNoScale trimmed1 Hm)
                 (ex_intro _ (VStr "USER") eq_refl) eq_refl).
Defined.

End Sample.

(** * The configuration overrides of [config/processCcdCpIsr.py]

    The file is executed by the framework with [config] bound to the
    configuration of the task.  A configuration is a tree of Python
    objects; the statements read attribute chains from the root and assign
    an attribute, assign a dictionary item, or call a method at the object
    they reach.  The root is the state of the script. *)

Module ProcessCcdCpIsr.

Section Script.

(** Values of other kinds than those the file handles (floats, lists). *)
Context {Other : Type}.

#[warnings="-register-all"]
Inductive pyobj : Type :=
  | PInt (n : Z)
  | PStr (s : string)
  | POther (o : Other)
  | PDict (items : gmap string pyobj)
  | PObj (attrs : gmap string pyobj).

Inductive pyexn : Type :=
  | PyAttributeError (name : string)
  | PyTypeError (msg : string)
  | PyRaised (e : exn).

Inductive result (A : Type) : Type :=
  | Ok (a : A)
  | Exc (e : pyexn).
Arguments Ok {A} a.
Arguments Exc {A} e.

Definition Script (A : Type) : Type := pyobj -> result A * pyobj.

#[local] Instance Script_ret : MRet Script := fun A a c => (Ok a, c).
#[local] Instance Script_bind : MBind Script := fun A B f m c =>
  match m c with
  | (Ok a, c') => f a c'
  | (Exc e, c') => (Exc e, c')
  end.

(** A computation that does not touch the configuration. *)
Definition pure_ {A : Type} (r : result A) : Script A := fun c => (r, c).

(** [obj.name], and the chain [obj.n1.n2...]. *)
Definition getattr_ (o : pyobj) (name : string) : result pyobj :=
  match o with
  | PObj attrs =>
      match attrs !! name with
      | Some v => Ok v
      | None => Exc (PyAttributeError name)
      end
  | _ => Exc (PyAttributeError name)
  end.

Fixpoint getattr_chain (names : list string) (o : pyobj) : result pyobj :=
  match names with
  | [] => Ok o
  | name :: rest =>
      match getattr_ o name with
      | Ok child => getattr_chain rest child
      | Exc e => Exc e
      end
  end.

(** [obj.name = v] and [obj[key] = v], on the object itself, as Python
    objects and dictionaries take them.  A configuration object of the
    framework may in addition refuse a name its class does not declare:
    what is proved of a run that returned, and of what a run leaves
    alone, does not depend on it. *)
Definition setattr_ (name : string) (v : pyobj) : Script unit :=
  fun o =>
    match o with
    | PObj attrs => (Ok tt, PObj (<[name := v]> attrs))
    | _ => (Exc (PyAttributeError name), o)
    end.

Definition setitem_ (key : string) (v : pyobj) : Script unit :=
  fun o =>
    match o with
    | PDict items => (Ok tt, PDict (<[key := v]> items))
    | _ => (Exc (PyTypeError "object does not support item assignment"), o)
    end.

(** [config.n1.n2... <op>]: the attribute chain is read from the root,
    and [op] works in place on the object it reaches.  A missing attribute
    raises before anything is changed. *)
Fixpoint at_ (names : list string) (op : Script unit) : Script unit :=
  fun o =>
    match names with
    | [] => op o
    | name :: rest =>
        match o with
        | PObj attrs =>
            match attrs !! name with
            | Some child =>
                let r := at_ rest op child in
                (fst r, PObj (<[name := snd r]> attrs))
            | None => (Exc (PyAttributeError name), o)
            end
        | _ => (Exc (PyAttributeError name), o)
        end
    end.

(** Evaluating an attribute chain, as for an element of a tuple. *)
Definition evaluate (names : list string) : Script unit :=
  fun c =>
    match getattr_chain names c with
    | Ok _ => (Ok tt, c)
    | Exc e => (Exc e, c)
    end.

(** [for x in xs: body] *)
Fixpoint for_each {X : Type} (xs : list X) (body : X -> Script unit) : Script unit :=
  match xs with
  | [] => mret tt
  | x :: rest => _ ← body x; for_each rest body
  end.

(** What the file takes from its environment: [lsst.utils.getPackageDir],
    [os.path.join], and the method [load] of the configuration of the ISR
    task, which executes another override file on that configuration. *)
Variable getPackageDir : string -> result string.
Variable os_path_join : string -> string -> string.
Variable load : string -> Script unit.

(** The objects the loop of lines 14-17 runs over, as attribute chains. *)
Definition refObjLoaders : list (list string) :=
  [ ["calibrate"; "astromRefObjLoader"];
    ["calibrate"; "photoRefObjLoader"];
    ["charImage"; "refObjLoader"] ].

(** [config/processCcdCpIsr.py], lines 8-23. *)
Definition processCcdCpIsr : Script unit :=
  packageDir ← pure_ (getPackageDir "obs_decam");
  let obsConfigDir := os_path_join packageDir "config" in
  _ ← at_ ["isr"] (load (os_path_join obsConfigDir "isr.py"));
  _ ← at_ ["charImage"; "repair"; "cosmicray"] (setattr_ "nCrPixelMax" (PInt 100000));
  _ ← for_each refObjLoaders evaluate;
  _ ← for_each refObjLoaders (fun refObjLoader =>
         _ ← at_ refObjLoader (setattr_ "ref_dataset_name" (PStr "ps1_pv3_3pi_20170110"));
         _ ← at_ (refObjLoader ++ ["filterMap"]) (setitem_ "u" (PStr "g"));
         at_ (refObjLoader ++ ["filterMap"]) (setitem_ "Y" (PStr "y")));
  at_ ["calibrate"; "photoCal"] (setattr_ "photoCatName" (PStr "ps1_pv3_3pi_20170110")).

(** *** Vocabulary of the properties *)

(** A place in a configuration: attribute names and dictionary keys from
    the root. *)
Inductive step : Type :=
  | Attr (name : string)
  | Item (key : string).

Definition step_eqb (a b : step) : bool :=
  match a, b with
  | Attr n, Attr m => String.eqb n m
  | Item k, Item l => String.eqb k l
  | _, _ => false
  end.

Definition lookup_step (o : pyobj) (s : step) : option pyobj :=
  match s, o with
  | Attr name, PObj attrs => attrs !! name
  | Item key, PDict items => items !! key
  | _, _ => None
  end.

Fixpoint lookup_at (place : list step) (o : pyobj) : option pyobj :=
  match place with
  | [] => Some o
  | s :: rest =>
      match lookup_step o s with
      | Some child => lookup_at rest child
      | None => None
      end
  end.

(** Two places part ways: at some depth both go on, by different steps. *)
Fixpoint diverge (p q : list step) : bool :=
  match p, q with
  | a :: p', b :: q' => if step_eqb a b then diverge p' q' else true
  | _, _ => false
  end.

(** The places the file writes: the ISR configuration, which [load] may
    change anywhere, and eleven attributes and items. *)
Definition loaderPlaces (refObjLoader : list string) : list (list step) :=
  [ (map Attr refObjLoader ++ [Attr "ref_dataset_name"])%list;
    (map Attr refObjLoader ++ [Attr "filterMap"; Item "u"])%list;
    (map Attr refObjLoader ++ [Attr "filterMap"; Item "Y"])%list ].

Definition written : list (list step) :=
  ([ [Attr "isr"];
     [Attr "charImage"; Attr "repair"; Attr "cosmicray"; Attr "nCrPixelMax"] ]
   ++ concat (map loaderPlaces refObjLoaders)
   ++ [ [Attr "calibrate"; Attr "photoCal"; Attr "photoCatName"] ])%list.

(** What an operation leaves alone, and what it establishes.  [op] writes
    within [place] only: a place that parts ways with [place] looks after
    [op] as before, whether [op] returned or raised.  [op] sets [place] to
    [v]: when it returned, [v] is found there. *)
Definition writesWithin (op : Script unit) (place : list step) : Prop :=
  forall o q, diverge place q = true -> lookup_at q (snd (op o)) = lookup_at q o.

Definition sets (op : Script unit) (place : list step) (v : pyobj) : Prop :=
  forall o, fst (op o) = Ok tt -> lookup_at place (snd (op o)) = Some v.

Definition preserves {A : Type} (q : list step) (m : Script A) : Prop :=
  forall c, lookup_at q (snd (m c)) = lookup_at q c.

Definition establishes (m : Script unit) (place : list step) (v : pyobj) : Prop :=
  forall c c', m c = (Ok tt, c') -> lookup_at place c' = Some v.

(** From a configuration where [I] holds, [m] raises, and [I] holds where
    it stopped. *)
Definition stops (I : pyobj -> Prop) (m : Script unit) : Prop :=
  forall c, I c -> (exists e, fst (m c) = Exc e) /\ I (snd (m c)).

Definition keeps {A : Type} (I : pyobj -> Prop) (m : Script A) : Prop :=
  forall c, I c -> I (snd (m c)).

(** The kind of object found at a place. *)
Inductive kind : Type := KInt | KStr | KOther | KDict | KObj.

Definition kind_of (o : pyobj) : kind :=
  match o with
  | PInt _ => KInt
  | PStr _ => KStr
  | POther _ => KOther
  | PDict _ => KDict
  | PObj _ => KObj
  end.

Definition kind_at (place : list step) (c : pyobj) : option kind :=
  option_map kind_of (lookup_at place c).

Fixpoint prefixb (p q : list step) : bool :=
  match p, q with
  | [], _ => true
  | a :: p', b :: q' => step_eqb a b && prefixb p' q'
  | _ :: _, [] => false
  end.

(** What a sequence of statements needs of the configuration: something
    at a place, or an object of a given kind. *)
Inductive shape : Type := AnyKind | Kind (K : kind).

Definition meets1 (c : pyobj) (r : list step * shape) : Prop :=
  match snd r with
  | AnyKind => is_Some (kind_at (fst r) c)
  | Kind K => kind_at (fst r) c = Some K
  end.

Definition meets (reqs : list (list step * shape)) (c : pyobj) : Prop :=
  Forall (meets1 c) reqs.

Definition returnsIff (m : Script unit) (reqs : list (list step * shape)) : Prop :=
  forall c, fst (m c) = Ok tt <-> meets reqs c.

Definition kindKept {A : Type} (q : list step) (m : Script A) : Prop :=
  forall c, kind_at q (snd (m c)) = kind_at q c.

Definition kindStable (op : Script unit) : Prop :=
  forall o, kind_of (snd (op o)) = kind_of o.

(** The objects the file assigns to: the cosmic ray configuration, the
    three loaders with their filter maps, and the photometric calibration
    configuration. *)
Definition requirements : list (list step * shape) :=
  [ ([Attr "charImage"; Attr "repair"; Attr "cosmicray"], Kind KObj);
    ([Attr "calibrate"; Attr "astromRefObjLoader"], Kind KObj);
    ([Attr "calibrate"; Attr "astromRefObjLoader"; Attr "filterMap"], Kind KDict);
    ([Attr "calibrate"; Attr "photoRefObjLoader"], Kind KObj);
    ([Attr "calibrate"; Attr "photoRefObjLoader"; Attr "filterMap"], Kind KDict);
    ([Attr "charImage"; Attr "refObjLoader"], Kind KObj);
    ([Attr "charImage"; Attr "refObjLoader"; Attr "filterMap"], Kind KDict);
    ([Attr "calibrate"; Attr "photoCal"], Kind KObj) ].

(** ** Properties of the configuration overrides *)

Lemma step_eqb_eq a b : step_eqb a b = true <-> a = b.
Proof.
  destruct a as [n|k], b as [m|l]; cbn; rewrite ?String.eqb_eq;
    split; intros E; try discriminate; try injection E; congruence.
Qed.

Lemma lookup_step_insert_same attrs name v :
  lookup_step (PObj (<[name := v]> attrs)) (Attr name) = Some v.
Proof. cbn. apply lookup_insert_eq. Qed.

Lemma lookup_step_insert_other attrs name v b :
  step_eqb (Attr name) b = false ->
  lookup_step (PObj (<[name := v]> attrs)) b = lookup_step (PObj attrs) b.
Proof.
  destruct b as [m|l]; cbn; [|reflexivity].
  intros E. apply lookup_insert_ne. intros ->. rewrite String.eqb_refl in E. discriminate.
Qed.

Lemma lookup_step_item_other items key v b :
  step_eqb (Item key) b = false ->
  lookup_step (PDict (<[key := v]> items)) b = lookup_step (PDict items) b.
Proof.
  destruct b as [m|l]; cbn; [reflexivity|].
  intros E. apply lookup_insert_ne. intros ->. rewrite String.eqb_refl in E. discriminate.
Qed.

Lemma getattr_chain_lookup names o v :
  getattr_chain names o = Ok v <-> lookup_at (map Attr names) o = Some v.
Proof.
  revert o. induction names as [|name rest IH]; intros o; cbn.
  - split; intros E; injection E as ->; reflexivity.
  - destruct o as [n|s|x|items|attrs]; cbn; try (split; intros E; discriminate E).
    destruct (attrs !! name) as [child|]; [apply IH | split; intros E; discriminate E].
Qed.

Lemma writesWithin_nothing_known op : writesWithin op [].
Proof. intros o q Hq. discriminate. Qed.

Lemma writesWithin_setattr name v : writesWithin (setattr_ name v) [Attr name].
Proof.
  intros o [|b q] Hq; [discriminate|]. cbn [diverge] in Hq.
  destruct (step_eqb (Attr name) b) eqn:E; [discriminate|].
  destruct o as [n|s|x|items|attrs]; try reflexivity.
  cbn [setattr_ snd lookup_at]. rewrite (lookup_step_insert_other _ _ _ _ E). reflexivity.
Qed.

Lemma writesWithin_setitem key v : writesWithin (setitem_ key v) [Item key].
Proof.
  intros o [|b q] Hq; [discriminate|]. cbn [diverge] in Hq.
  destruct (step_eqb (Item key) b) eqn:E; [discriminate|].
  destruct o as [n|s|x|items|attrs]; try reflexivity.
  cbn [setitem_ snd lookup_at]. rewrite (lookup_step_item_other _ _ _ _ E). reflexivity.
Qed.

Lemma writesWithin_at names op place :
  writesWithin op place -> writesWithin (at_ names op) (map Attr names ++ place).
Proof.
  intros Hop. induction names as [|name rest IH]; [exact Hop|].
  intros o [|b q] Hq; [discriminate|].
  cbn [map app diverge] in Hq. cbn [at_].
  destruct o as [n|s|x|items|attrs]; try reflexivity.
  destruct (attrs !! name) as [child|] eqn:Hc; [|reflexivity].
  cbn [snd lookup_at].
  destruct (step_eqb (Attr name) b) eqn:E.
  - apply step_eqb_eq in E. subst b. rewrite lookup_step_insert_same.
    cbn [lookup_step]. rewrite Hc. apply IH, Hq.
  - rewrite (lookup_step_insert_other _ _ _ _ E). reflexivity.
Qed.

Lemma sets_setattr name v : sets (setattr_ name v) [Attr name] v.
Proof.
  intros o Ho. destruct o as [n|s|x|items|attrs]; try discriminate.
  cbn. rewrite lookup_insert_eq. reflexivity.
Qed.

Lemma sets_setitem key v : sets (setitem_ key v) [Item key] v.
Proof.
  intros o Ho. destruct o as [n|s|x|items|attrs]; try discriminate.
  cbn. rewrite lookup_insert_eq. reflexivity.
Qed.

Lemma sets_at names op place v :
  sets op place v -> sets (at_ names op) (map Attr names ++ place) v.
Proof.
  intros Hop. induction names as [|name rest IH]; [exact Hop|].
  intros o Ho. cbn [at_] in *.
  destruct o as [n|s|x|items|attrs]; try discriminate.
  destruct (attrs !! name) as [child|] eqn:Hc; [|discriminate].
  cbn [fst snd] in *. cbn [map app lookup_at].
  rewrite lookup_step_insert_same. apply IH, Ho.
Qed.

(** An operation at the end of an attribute chain that exists works on
    the object found there. *)
Lemma at_found names op o node :
  lookup_at (map Attr names) o = Some node ->
  fst (at_ names op o) = fst (op node) /\
  lookup_at (map Attr names) (snd (at_ names op o)) = Some (snd (op node)).
Proof.
  revert o. induction names as [|name rest IH]; intros o Hl.
  - cbn in Hl. injection Hl as ->. split; reflexivity.
  - cbn [map lookup_at] in Hl. cbn [at_].
    destruct o as [n|s|x|items|attrs]; try discriminate.
    cbn [lookup_step] in Hl.
    destruct (attrs !! name) as [child|] eqn:Hc; [|discriminate].
    cbn [fst snd map lookup_at]. rewrite lookup_step_insert_same.
    apply IH, Hl.
Qed.

(** An attribute chain that breaks raises, and changes nothing. *)
Lemma at_missing names op o :
  lookup_at (map Attr names) o = None ->
  exists name, at_ names op o = (Exc (PyAttributeError name), o).
Proof.
  revert o. induction names as [|name rest IH]; intros o Hl; [discriminate|].
  cbn [map lookup_at] in Hl. cbn [at_].
  destruct o as [n|s|x|items|attrs]; eauto.
  cbn [lookup_step] in Hl.
  destruct (attrs !! name) as [child|] eqn:Hc; [|eauto].
  destruct (IH child Hl) as [missing ->]. exists missing. cbn [fst snd].
  rewrite (insert_id attrs name child Hc). reflexivity.
Qed.

(** *** Sequences *)

Lemma preserves_ret {A : Type} q (a : A) : preserves q (mret a : Script A).
Proof. intros c. reflexivity. Qed.

Lemma preserves_pure {A : Type} q (r : result A) : preserves q (pure_ r).
Proof. intros c. reflexivity. Qed.

Lemma preserves_bind {A B : Type} q (m : Script A) (k : A -> Script B) :
  preserves q m -> (forall a, preserves q (k a)) -> preserves q (m ≫= k).
Proof.
  intros Hm Hk c. unfold mbind, Script_bind.
  specialize (Hm c). destruct (m c) as [[a|e] c1]; cbn [snd] in *.
  - rewrite (Hk a c1). exact Hm.
  - exact Hm.
Qed.

Lemma preserves_evaluate q names : preserves q (evaluate names).
Proof. intros c. unfold evaluate. destruct (getattr_chain names c); reflexivity. Qed.

Lemma preserves_for_each {X : Type} q (xs : list X) (body : X -> Script unit) :
  (forall x, In x xs -> preserves q (body x)) -> preserves q (for_each xs body).
Proof.
  induction xs as [|x rest IH]; intros Hb; cbn [for_each].
  - apply preserves_ret.
  - apply preserves_bind.
    + apply Hb. left. reflexivity.
    + intros _. apply IH. intros y Hy. apply Hb. right. exact Hy.
Qed.

Lemma preserves_at q names op place :
  writesWithin op place -> diverge (map Attr names ++ place) q = true ->
  preserves q (at_ names op).
Proof. intros Hop Hq c. apply (writesWithin_at names op place Hop), Hq. Qed.

Lemma establishes_at names op place v :
  sets op place v -> establishes (at_ names op) (map Attr names ++ place) v.
Proof.
  intros Hop c c' Hrun. pose proof (sets_at names op place v Hop c) as Hs.
  rewrite Hrun in Hs. apply Hs. reflexivity.
Qed.

Lemma establishes_then (m : Script unit) (k : unit -> Script unit) place v :
  establishes m place v -> (forall a, preserves place (k a)) ->
  establishes (m ≫= k) place v.
Proof.
  intros Hm Hk c c' Hrun. unfold mbind, Script_bind in Hrun.
  destruct (m c) as [[a|e] c1] eqn:Em; [|discriminate].
  destruct a. specialize (Hk tt c1). rewrite Hrun in Hk. cbn [snd] in Hk.
  rewrite Hk. apply (Hm c c1 Em).
Qed.

Lemma establishes_after {A : Type} (m : Script A) (k : A -> Script unit) place v :
  (forall a, establishes (k a) place v) -> establishes (m ≫= k) place v.
Proof.
  intros Hk c c' Hrun. unfold mbind, Script_bind in Hrun.
  destruct (m c) as [[a|e] c1] eqn:Em; [|discriminate].
  apply (Hk a c1 c' Hrun).
Qed.

(** A place is preserved by a sequence when it parts ways with the places
    of its assignments. *)
Ltac parted := first [reflexivity | assumption].

Ltac preserve :=
  repeat first
    [ apply preserves_ret
    | apply preserves_pure
    | apply preserves_evaluate
    | apply preserves_bind; [|intros ?; cbv zeta]
    | match goal with
      | |- preserves ?q (at_ ?names (setattr_ ?n ?v)) =>
          apply (preserves_at q names _ [Attr n] (writesWithin_setattr n v)); parted
      | |- preserves ?q (at_ ?names (setitem_ ?k ?v)) =>
          apply (preserves_at q names _ [Item k] (writesWithin_setitem k v)); parted
      | |- preserves ?q (at_ ?names ?op) =>
          apply (preserves_at q names op [] (writesWithin_nothing_known op)); parted
      end ].

(** The place is set by one statement of the sequence and preserved by
    those after it. *)
Ltac establish :=
  lazymatch goal with
  | |- establishes (at_ ?names (setattr_ ?n ?v)) _ _ =>
      exact (establishes_at names _ [Attr n] v (sets_setattr n v))
  | |- establishes (at_ ?names (setitem_ ?k ?v)) _ _ =>
      exact (establishes_at names _ [Item k] v (sets_setitem k v))
  | |- establishes (_ ≫= _) _ _ =>
      first [ apply establishes_then;
              [ establish | intros ?; cbv zeta; solve [preserve] ]
            | apply establishes_after; intros ?; cbv zeta; establish ]
  end.

(** X12: when the overrides were applied, the cosmic ray limit is 100000,
    each of the three reference object loaders has the PS1 data set name
    and maps the filter u to g and Y to y, and the photometric catalogue
    name is the PS1 data set name. *)
Theorem overrides_establish_values (c c' : pyobj) :
  processCcdCpIsr c = (Ok tt, c') ->
  lookup_at [Attr "charImage"; Attr "repair"; Attr "cosmicray"; Attr "nCrPixelMax"] c'
    = Some (PInt 100000) /\
  (forall refObjLoader, In refObjLoader refObjLoaders ->
     lookup_at (map Attr refObjLoader ++ [Attr "ref_dataset_name"]) c'
       = Some (PStr "ps1_pv3_3pi_20170110") /\
     lookup_at (map Attr refObjLoader ++ [Attr "filterMap"; Item "u"]) c'
       = Some (PStr "g") /\
     lookup_at (map Attr refObjLoader ++ [Attr "filterMap"; Item "Y"]) c'
       = Some (PStr "y")) /\
  lookup_at [Attr "calibrate"; Attr "photoCal"; Attr "photoCatName"] c'
    = Some (PStr "ps1_pv3_3pi_20170110").
Proof.
  intros Hrun.
  assert (He : forall place v, establishes processCcdCpIsr place v ->
                               lookup_at place c' = Some v)
    by (intros place v H; exact (H c c' Hrun)).
  split; [|split].
  - apply He. unfold processCcdCpIsr. cbn [for_each refObjLoaders app]. establish.
  - intros refObjLoader Hin. cbn [refObjLoaders In] in Hin.
    destruct Hin as [<- | [<- | [<- | []]]]; cbn [map app];
      (split; [|split]); apply He; unfold processCcdCpIsr;
      cbn [for_each refObjLoaders app]; establish.
  - apply He. unfold processCcdCpIsr. cbn [for_each refObjLoaders app]. establish.
Qed.

(** X13: whether the overrides were applied or an exception stopped
    them, a place of the configuration that parts ways with the twelve
    places the file writes holds what it held: other attributes, other
    filter mappings and other parts of the configuration are untouched. *)
Theorem overrides_touch_nothing_else (c : pyobj) (q : list step) :
  forallb (fun place => diverge place q) written = true ->
  lookup_at q (snd (processCcdCpIsr c)) = lookup_at q c.
Proof.
  intros Hq. cbn [written refObjLoaders loaderPlaces map concat app forallb] in Hq.
  repeat (apply andb_true_iff in Hq; destruct Hq as [? Hq]).
  revert c. change (preserves q processCcdCpIsr).
  unfold processCcdCpIsr. cbn [for_each refObjLoaders app].
  preserve.
Qed.

Lemma stops_now (I : pyobj -> Prop) (m : Script unit) (k : unit -> Script unit) :
  stops I m -> stops I (m ≫= k).
Proof.
  intros Hm c Hc. destruct (Hm c Hc) as [[e He] HI].
  unfold mbind, Script_bind. destruct (m c) as [[a|e'] c1]; [discriminate|].
  cbn [fst snd] in *. eauto.
Qed.

Lemma stops_later {A : Type} (I : pyobj -> Prop) (m : Script A) (k : A -> Script unit) :
  keeps I m -> (forall a, stops I (k a)) -> stops I (m ≫= k).
Proof.
  intros Hm Hk c Hc. specialize (Hm c Hc).
  unfold mbind, Script_bind. destruct (m c) as [[a|e] c1]; cbn [fst snd] in *.
  - apply (Hk a c1 Hm).
  - eauto.
Qed.

Lemma stops_evaluate (I : pyobj -> Prop) names :
  (forall c, I c -> lookup_at (map Attr names) c = None) -> stops I (evaluate names).
Proof.
  intros Hnone c Hc. unfold evaluate.
  destruct (getattr_chain names c) as [v|e] eqn:E.
  - apply getattr_chain_lookup in E. rewrite (Hnone c Hc) in E. discriminate.
  - cbn. eauto.
Qed.

Lemma keeps_evaluate (I : pyobj -> Prop) names : keeps I (evaluate names).
Proof. intros c Hc. unfold evaluate. destruct (getattr_chain names c); exact Hc. Qed.

Lemma keeps_pure {A : Type} (I : pyobj -> Prop) (r : result A) : keeps I (pure_ r).
Proof. intros c Hc. exact Hc. Qed.

(** X14: the three reference object loaders are looked up before the
    loop runs.  When the configuration has no [charImage.refObjLoader],
    the file raises before it has assigned to any loader: nothing under
    [calibrate] has changed, whether or not its two loaders are there. *)
Theorem missing_loader_stops_before_loop (c : pyobj) :
  lookup_at [Attr "charImage"; Attr "refObjLoader"] c = None ->
  (exists e, fst (processCcdCpIsr c) = Exc e) /\
  forall q, lookup_at (Attr "calibrate" :: q) (snd (processCcdCpIsr c))
            = lookup_at (Attr "calibrate" :: q) c.
Proof.
  intros Hnone.
  set (I := fun c2 : pyobj =>
              lookup_at [Attr "charImage"; Attr "refObjLoader"] c2 = None /\
              forall q, lookup_at (Attr "calibrate" :: q) c2
                        = lookup_at (Attr "calibrate" :: q) c).
  assert (Hkeep : forall m : Script unit,
            preserves [Attr "charImage"; Attr "refObjLoader"] m ->
            (forall q, preserves (Attr "calibrate" :: q) m) -> keeps I m).
  { intros m H1 H2 c2 [Ha Hb]. split.
    - rewrite H1. exact Ha.
    - intros q. rewrite H2. apply Hb. }
  assert (Hstops : stops I processCcdCpIsr).
  { unfold processCcdCpIsr. cbn [for_each refObjLoaders].
    apply stops_later; [apply keeps_pure|]. intros packageDir. cbv zeta.
    apply stops_later; [apply Hkeep; [|intros q]; preserve|]. intros _.
    apply stops_later; [apply Hkeep; [|intros q]; preserve|]. intros _.
    apply stops_now.
    apply stops_later; [apply keeps_evaluate|]. intros _.
    apply stops_later; [apply keeps_evaluate|]. intros _.
    apply stops_now, stops_evaluate. intros c2 [Ha _]. exact Ha. }
  destruct (Hstops c) as [He [_ Hq]].
  - split; [exact Hnone|reflexivity].
  - split; assumption.
Qed.

(** *** When the overrides apply *)

Lemma kindKept_of_preserves {A : Type} q (m : Script A) : preserves q m -> kindKept q m.
Proof. intros Hp c. unfold kind_at. rewrite Hp. reflexivity. Qed.

Lemma kindStable_setattr name v : kindStable (setattr_ name v).
Proof. intros [n|s|x|items|attrs]; reflexivity. Qed.

Lemma kindStable_setitem key v : kindStable (setitem_ key v).
Proof. intros [n|s|x|items|attrs]; reflexivity. Qed.

Lemma kindStable_at names op : kindStable op -> kindStable (at_ names op).
Proof.
  intros Hop. induction names as [|name rest IH]; [exact Hop|].
  intros [n|s|x|items|attrs]; try reflexivity.
  cbn [at_]. destruct (attrs !! name); reflexivity.
Qed.

Lemma kindKept_at_prefix q names op :
  kindStable op -> prefixb q (map Attr names) = true -> kindKept q (at_ names op).
Proof.
  intros Hop. revert q. induction names as [|name rest IH]; intros q Hq c.
  - destruct q; [|discriminate]. unfold kind_at. cbn. f_equal. apply Hop.
  - destruct q as [|b q'].
    + unfold kind_at. cbn [lookup_at option_map]. f_equal.
      apply (kindStable_at (name :: rest) op Hop).
    + cbn [map prefixb] in Hq. apply andb_true_iff in Hq. destruct Hq as [Hb Hq].
      apply step_eqb_eq in Hb. subst b. cbn [at_].
      destruct c as [n|s|x|items|attrs]; try reflexivity.
      destruct (attrs !! name) as [child|] eqn:Hc; [|reflexivity].
      cbn [snd]. unfold kind_at. cbn [lookup_at].
      rewrite lookup_step_insert_same. cbn [lookup_step]. rewrite Hc.
      apply (IH q' Hq child).
Qed.

Lemma kindKept_bind {A B : Type} q (m : Script A) (k : A -> Script B) :
  kindKept q m -> (forall a, kindKept q (k a)) -> kindKept q (m ≫= k).
Proof.
  intros Hm Hk c. unfold mbind, Script_bind.
  specialize (Hm c). destruct (m c) as [[a|e] c1]; cbn [snd] in *.
  - rewrite (Hk a c1). exact Hm.
  - exact Hm.
Qed.

(** The kind at a place is kept by a sequence whose assignments part ways
    with the place or pass through it. *)
Ltac kept :=
  repeat first
    [ apply kindKept_bind; [|intros ?; cbv zeta]
    | apply kindKept_of_preserves; solve [preserve]
    | match goal with
      | |- kindKept ?q (at_ ?names (setattr_ ?n ?v)) =>
          apply (kindKept_at_prefix q names _ (kindStable_setattr n v)); reflexivity
      | |- kindKept ?q (at_ ?names (setitem_ ?k ?v)) =>
          apply (kindKept_at_prefix q names _ (kindStable_setitem k v)); reflexivity
      end ].

Lemma at_returns_iff names op K c :
  (forall node, fst (op node) = Ok tt <-> kind_of node = K) ->
  (fst (at_ names op c) = Ok tt <-> kind_at (map Attr names) c = Some K).
Proof.
  intros Hop. unfold kind_at.
  destruct (lookup_at (map Attr names) c) as [node|] eqn:Hl.
  - destruct (at_found names op c node Hl) as [-> _]. rewrite Hop. cbn.
    split; [intros ->; reflexivity | intros E; injection E as ->; reflexivity].
  - destruct (at_missing names op c Hl) as [missing ->]. cbn. split; discriminate.
Qed.

Lemma setattr_returns_iff name v node :
  fst (setattr_ name v node) = Ok tt <-> kind_of node = KObj.
Proof. destruct node; cbn; split; intros E; try discriminate E; reflexivity. Qed.

Lemma setitem_returns_iff key v node :
  fst (setitem_ key v node) = Ok tt <-> kind_of node = KDict.
Proof. destruct node; cbn; split; intros E; try discriminate E; reflexivity. Qed.

Lemma returnsIff_setattr names name v :
  returnsIff (at_ names (setattr_ name v)) [(map Attr names, Kind KObj)].
Proof.
  intros c. rewrite (at_returns_iff names _ KObj c (setattr_returns_iff name v)).
  unfold meets. rewrite Forall_singleton. reflexivity.
Qed.

Lemma returnsIff_setitem names key v :
  returnsIff (at_ names (setitem_ key v)) [(map Attr names, Kind KDict)].
Proof.
  intros c. rewrite (at_returns_iff names _ KDict c (setitem_returns_iff key v)).
  unfold meets. rewrite Forall_singleton. reflexivity.
Qed.

Lemma returnsIff_evaluate names :
  returnsIff (evaluate names) [(map Attr names, AnyKind)].
Proof.
  intros c. unfold meets. rewrite Forall_singleton. unfold meets1, kind_at, evaluate.
  cbn [fst snd].
  destruct (getattr_chain names c) as [v|e] eqn:E.
  - apply getattr_chain_lookup in E. rewrite E. cbn. split; eauto.
  - destruct (lookup_at (map Attr names) c) as [v|] eqn:Hl.
    + apply getattr_chain_lookup in Hl. congruence.
    + cbn. split; [discriminate | intros [? ?]; discriminate].
Qed.

Lemma returnsIff_ret : returnsIff (mret tt) [].
Proof. intros c. unfold meets. split; [constructor | reflexivity]. Qed.

Lemma returnsIff_bind (m : Script unit) (k : unit -> Script unit) r1 r2 :
  returnsIff m r1 -> returnsIff (k tt) r2 ->
  Forall (fun r => kindKept (fst r) m) r2 ->
  returnsIff (m ≫= k) (r1 ++ r2).
Proof.
  intros Hm Hk Hkept c. unfold meets. rewrite Forall_app. fold (meets r1 c) (meets r2 c).
  rewrite <- (Hm c).
  assert (Hmove : meets r2 (snd (m c)) <-> meets r2 c).
  { unfold meets. clear Hk. induction Hkept as [|r rs Hr _ IH]; [split; constructor|].
    rewrite !Forall_cons, IH. unfold meets1. rewrite (Hr c). reflexivity. }
  rewrite <- Hmove, <- (Hk (snd (m c))).
  unfold mbind, Script_bind. destruct (m c) as [[[]|e] c1]; cbn [fst snd].
  - intuition.
  - split; [discriminate | intros [E _]; discriminate].
Qed.

(** The requirements of a sequence, statement by statement. *)
Ltac needs :=
  lazymatch goal with
  | |- returnsIff (at_ ?names (setattr_ ?n ?v)) _ => apply returnsIff_setattr
  | |- returnsIff (at_ ?names (setitem_ ?k ?v)) _ => apply returnsIff_setitem
  | |- returnsIff (evaluate ?names) _ => apply returnsIff_evaluate
  | |- returnsIff (mret tt) _ => apply returnsIff_ret
  | |- returnsIff (_ ≫= _) _ =>
      eapply returnsIff_bind; [needs | needs | repeat constructor; cbn [fst]; kept]
  end.

Lemma meets_moved {A : Type} (m : Script A) reqs c :
  Forall (fun r => kindKept (fst r) m) reqs ->
  (meets reqs (snd (m c)) <-> meets reqs c).
Proof.
  intros Hkept. unfold meets. induction Hkept as [|r rs Hr _ IH]; [split; constructor|].
  rewrite !Forall_cons, IH. unfold meets1. rewrite (Hr c). reflexivity.
Qed.

Lemma at_returns_found names op c :
  fst (at_ names op c) = Ok tt <->
  exists node, lookup_at (map Attr names) c = Some node /\ fst (op node) = Ok tt.
Proof.
  destruct (lookup_at (map Attr names) c) as [node|] eqn:Hl.
  - destruct (at_found names op c node Hl) as [-> _]. split.
    + intros E. eauto.
    + intros (node' & E & Hop). injection E as <-. exact Hop.
  - destruct (at_missing names op c Hl) as [missing ->]. cbn. split.
    + discriminate.
    + intros (node & E & _). discriminate.
Qed.

Lemma bind_returns (m : Script unit) (k : unit -> Script unit) c :
  fst ((m ≫= k) c) = Ok tt <->
  fst (m c) = Ok tt /\ fst (k tt (snd (m c))) = Ok tt.
Proof.
  unfold mbind, Script_bind. destruct (m c) as [[[]|e] c1]; cbn [fst snd].
  - intuition.
  - split; [discriminate | intros [E _]; discriminate].
Qed.

(** On objects that take every attribute name, the statements after the
    call of [load] return exactly when the configuration meets the
    [requirements]. *)
Lemma assignments_return_iff :
  returnsIff
    (_ ← at_ ["charImage"; "repair"; "cosmicray"] (setattr_ "nCrPixelMax" (PInt 100000));
     _ ← for_each refObjLoaders evaluate;
     _ ← for_each refObjLoaders (fun refObjLoader =>
         _ ← at_ refObjLoader (setattr_ "ref_dataset_name" (PStr "ps1_pv3_3pi_20170110"));
         _ ← at_ (refObjLoader ++ ["filterMap"]) (setitem_ "u" (PStr "g"));
         at_ (refObjLoader ++ ["filterMap"]) (setitem_ "Y" (PStr "y")));
     at_ ["calibrate"; "photoCal"] (setattr_ "photoCatName" (PStr "ps1_pv3_3pi_20170110")))
    requirements.
Proof.
  cbn [for_each refObjLoaders app].
  match goal with
  | |- returnsIff ?tail _ =>
      assert (H : exists reqs, returnsIff tail reqs /\
                               forall c, meets reqs c <-> meets requirements c)
  end.
  { eexists. split; [needs|].
    intros c. unfold meets, requirements. cbn [map app].
    rewrite !Forall_cons, !Forall_nil. unfold meets1. cbn [fst snd].
    unfold is_Some. intuition eauto. }
  destruct H as (reqs & Hreqs & Hsame). intros c.
  rewrite (Hreqs c). apply Hsame.
Qed.

(** X15: what the overrides need.  The file returns only if the package
    directory is found, the configuration has an attribute [isr] on which
    [load] of the file [config/isr.py] of the package returns, the cosmic
    ray configuration, the three loaders and the photometric calibration
    configuration are objects, and the filter map of each loader is a
    dictionary.  (The converse is not claimed: a configuration of the
    framework may refuse an assignment for reasons of its own.) *)
Theorem overrides_apply_only_if (c : pyobj) :
  fst (processCcdCpIsr c) = Ok tt ->
  (exists packageDir isr,
     getPackageDir "obs_decam" = Ok packageDir /\
     lookup_at [Attr "isr"] c = Some isr /\
     fst (load (os_path_join (os_path_join packageDir "config") "isr.py") isr) = Ok tt) /\
  meets requirements c.
Proof.
  unfold processCcdCpIsr.
  assert (Hmove : forall op, meets requirements (snd (at_ ["isr"] op c))
                             <-> meets requirements c).
  { intros op. apply meets_moved. unfold requirements.
    repeat constructor; cbn [fst]; kept. }
  unfold mbind at 1. unfold Script_bind at 1. unfold pure_.
  destruct (getPackageDir "obs_decam") as [packageDir|e]; cbn [fst]; cbv zeta;
    [|discriminate].
  rewrite bind_returns, at_returns_found.
  rewrite (assignments_return_iff (snd (at_ ["isr"] _ c))), Hmove.
  intros [(isr & Hl & Hload) Hreq]. split; [|exact Hreq].
  exists packageDir, isr. auto.
Qed.

(** X16: when the package directory is not found, or the configuration
    has no attribute [isr], the file raises and the configuration is as it
    was: no override file was loaded and nothing was assigned. *)
Theorem overrides_stop_at_once (c : pyobj) :
  (forall e, getPackageDir "obs_decam" = Exc e -> processCcdCpIsr c = (Exc e, c)) /\
  (forall packageDir, getPackageDir "obs_decam" = Ok packageDir ->
     lookup_at [Attr "isr"] c = None ->
     processCcdCpIsr c = (Exc (PyAttributeError "isr"), c)).
Proof.
  unfold processCcdCpIsr. split.
  - intros e He. unfold mbind at 1. unfold Script_bind at 1. unfold pure_.
    rewrite He. reflexivity.
  - intros packageDir Hd Hl. unfold mbind at 1. unfold Script_bind at 1. unfold pure_.
    rewrite Hd. cbv zeta. unfold mbind at 1. unfold Script_bind at 1.
    destruct (at_missing ["isr"] (load (os_path_join (os_path_join packageDir "config")
                                                     "isr.py")) c Hl) as [missing Hm].
    rewrite Hm. f_equal. cbn [at_] in Hm.
    destruct c as [n|s|x|items|attrs]; try (injection Hm as <-; reflexivity).
    cbn [map lookup_at lookup_step] in Hl.
    destruct (attrs !! "isr"); [discriminate|]. injection Hm as <-. reflexivity.
Qed.

End Script.

Arguments Ok {A} a.
Arguments Exc {A} e.

(** *** A concrete configuration *)

Definition packageDirOf (name : string) : result string :=
  if String.eqb name "obs_decam" then Ok "/stack/obs_decam"
  else Exc (PyRaised (RuntimeError "package not set up")).

Definition joinPath (a b : string) : string := a ++ "/" ++ b.

(** An override file that records its own name in the configuration it
    is loaded on. *)
Definition recordLoad (file : string) : @Script Empty_set unit :=
  setattr_ "loadedFrom" (PStr file).

Definition loaderConfig : @pyobj Empty_set :=
  PObj (<["pixelMargin" := PInt 50]>
        (<["filterMap" := PDict (<["z" := PStr "z"]> (<["u" := PStr "u"]> ∅))]>
         (<["ref_dataset_name" := PStr "cal_ref_cat"]> ∅))).

Definition sampleConfig : @pyobj Empty_set :=
  PObj (<["isr" := PObj (<["doBias" := PInt 1]> ∅)]>
        (<["charImage" :=
             PObj (<["refObjLoader" := loaderConfig]>
                   (<["repair" :=
                        PObj (<["cosmicray" := PObj (<["nCrPixelMax" := PInt 10000]> ∅)]> ∅)]>
                    ∅))]>
         (<["calibrate" :=
              PObj (<["photoCal" := PObj (<["photoCatName" := PStr "cal_ref_cat"]> ∅)]>
                    (<["photoRefObjLoader" := loaderConfig]>
                     (<["astromRefObjLoader" := loaderConfig]> ∅)))]>
          ∅))).

(** The same configuration without [charImage.refObjLoader]. *)
Definition lackingLoader : @pyobj Empty_set :=
  PObj (<["isr" := PObj ∅]>
        (<["charImage" :=
             PObj (<["repair" :=
                       PObj (<["cosmicray" := PObj (<["nCrPixelMax" := PInt 10000]> ∅)]> ∅)]>
                   ∅)]>
         (<["calibrate" :=
              PObj (<["photoCal" := PObj ∅]>
                    (<["photoRefObjLoader" := loaderConfig]>
                     (<["astromRefObjLoader" := loaderConfig]> ∅)))]>
          ∅))).

Definition applyOverrides (c : @pyobj Empty_set) : result unit * @pyobj Empty_set :=
  processCcdCpIsr packageDirOf joinPath recordLoad c.

Example applyOverrides_sampleConfig_returns : fst (applyOverrides sampleConfig) = Ok tt.
Proof. vm_compute. reflexivity. Qed.

Example applyOverrides_sampleConfig_loads :
  lookup_at [Attr "isr"; Attr "loadedFrom"] (snd (applyOverrides sampleConfig))
  = Some (PStr "/stack/obs_decam/config/isr.py").
Proof. vm_compute. reflexivity. Qed.

Example applyOverrides_sampleConfig_filterMap :
  map (fun key => lookup_at [Attr "calibrate"; Attr "photoRefObjLoader";
                             Attr "filterMap"; Item key]
                            (snd (applyOverrides sampleConfig)))
      ["u"; "Y"; "z"; "g"]
  = [Some (PStr "g"); Some (PStr "y"); Some (PStr "z"); None].
Proof. vm_compute. reflexivity. Qed.

Lemma overrides_establish_values_witness :
  lookup_at [Attr "charImage"; Attr "repair"; Attr "cosmicray"; Attr "nCrPixelMax"]
            (snd (applyOverrides sampleConfig)) = Some (PInt 100000) /\
  lookup_at [Attr "charImage"; Attr "refObjLoader"; Attr "filterMap"; Item "Y"]
            (snd (applyOverrides sampleConfig)) = Some (PStr "y") /\
  lookup_at [Attr "calibrate"; Attr "photoCal"; Attr "photoCatName"]
            (snd (applyOverrides sampleConfig)) = Some (PStr "ps1_pv3_3pi_20170110").
Proof.
  assert (Hrun : applyOverrides sampleConfig = (Ok tt, snd (applyOverrides sampleConfig))).
  { vm_compute. reflexivity. }
  destruct (overrides_establish_values packageDirOf joinPath recordLoad
              sampleConfig _ Hrun) as (Hn & Hl & Hp).
  split; [exact Hn|]. split; [|exact Hp].
  exact (proj2 (proj2 (Hl ["charImage"; "refObjLoader"]
                          (or_intror (or_intror (or_introl eq_refl)))))).
Defined.

Lemma overrides_touch_nothing_else_witness :
  lookup_at [Attr "calibrate"; Attr "astromRefObjLoader"; Attr "pixelMargin"]
            (snd (applyOverrides sampleConfig)) = Some (PInt 50) /\
  lookup_at [Attr "calibrate"; Attr "astromRefObjLoader"; Attr "filterMap"; Item "z"]
            (snd (applyOverrides sampleConfig)) = Some (PStr "z").
Proof.
  split.
  - exact (eq_trans
             (overrides_touch_nothing_else packageDirOf joinPath recordLoad sampleConfig
                [Attr "calibrate"; Attr "astromRefObjLoader"; Attr "pixelMargin"] eq_refl)
             eq_refl).
  - exact (eq_trans
             (overrides_touch_nothing_else packageDirOf joinPath recordLoad sampleConfig
                [Attr "calibrate"; Attr "astromRefObjLoader"; Attr "filterMap"; Item "z"]
                eq_refl)
             eq_refl).
Defined.

Lemma missing_loader_stops_before_loop_witness :
  (exists e, fst (applyOverrides lackingLoader) = Exc e) /\
  lookup_at [Attr "calibrate"; Attr "astromRefObjLoader"; Attr "ref_dataset_name"]
            (snd (applyOverrides lackingLoader)) = Some (PStr "cal_ref_cat").
Proof.
  destruct (missing_loader_stops_before_loop packageDirOf joinPath recordLoad
              lackingLoader eq_refl) as [He Hq].
  split; [exact He|].
  exact (eq_trans (Hq [Attr "astromRefObjLoader"; Attr "ref_dataset_name"]) eq_refl).
Defined.

Lemma overrides_stop_at_once_witness :
  processCcdCpIsr (fun _ => Exc (PyRaised (RuntimeError "package not set up")))
                  joinPath recordLoad sampleConfig
  = (Exc (PyRaised (RuntimeError "package not set up")), sampleConfig) /\
  applyOverrides (PObj ∅) = (Exc (PyAttributeError "isr"), PObj ∅).
Proof.
  split.
  - exact (proj1 (overrides_stop_at_once
                    (fun _ => Exc (PyRaised (RuntimeError "package not set up")))
                    joinPath recordLoad sampleConfig) _ eq_refl).
  - exact (proj2 (overrides_stop_at_once packageDirOf joinPath recordLoad (PObj ∅))
                 "/stack/obs_decam" eq_refl eq_refl).
Defined.

Lemma overrides_apply_only_if_witness :
  fst (applyOverrides sampleConfig) = Ok tt /\
  (exists packageDir isr,
     packageDirOf "obs_decam" = Ok packageDir /\
     lookup_at [Attr "isr"] sampleConfig = Some isr /\
     fst (recordLoad (joinPath (joinPath packageDir "config") "isr.py") isr) = Ok tt) /\
  meets requirements sampleConfig.
Proof.
  assert (Hrun : fst (applyOverrides sampleConfig) = Ok tt) by (vm_compute; reflexivity).
  split; [exact Hrun|].
  exact (overrides_apply_only_if packageDirOf joinPath recordLoad sampleConfig Hrun).
Defined.

End ProcessCcdCpIsr.
